(** * celebrity-hunt: the graph service (backend/services/graph.py)

    A shallow embedding of [calculate_access_score], [find_best_path] and
    [get_graph_data].  Each function is modelled on the list of rows that
    its database query returns; the query itself stays outside.

    Python values are embedded as follows.
    - [int] is [Z] (unbounded).
    - [float] is the rational it denotes; every float operation rounds its
      exact result to binary64 (round to nearest, ties to even), see
      [Binary64].  A result beyond the largest finite double is [None]:
      Python raises [OverflowError] there, at the operation itself or at the
      [int()] that follows.
    - [str] is [string]: ASCII text as it stands, other text as its UTF-8
      bytes, on which concatenation, emptiness and the substring test [in]
      are those of the code points.  [str.lower()] is the method of the
      class [Py.Lower]: the path finder is embedded over any case folding,
      so over Python's on all text, and the instance that evaluates the
      samples folds A-Z.  [str.strip()] and [str.split()] are embedded for
      ASCII text, and what is proved through them is stated of ASCII text.
    - a nullable text column is [option string].
    - a raised exception is [None] in the [option] monad. *)

From Stdlib Require Import ZArith QArith Qround Qabs Qpower SpecFloat.
From Stdlib Require Import List String Ascii DecimalString DecimalZ Bool.
From Stdlib Require Import Lia Lqa Permutation Sorting.Sorted.
Import ListNotations.

Open Scope string_scope.
Open Scope Z_scope.

(** ** Binary64 arithmetic on rationals *)

Module Binary64.

(** [Qlog2 x] is the integer part of the base-2 logarithm of a positive [x]. *)
Definition Qlog2 (x : Q) : Z :=
  let d := Z.log2 (Qnum x) - Z.log2 (Zpos (Qden x)) in
  if Qle_bool (Qpower 2 d) x then d else d - 1.

(** Rounding to the nearest integer, ties to the even one. *)
Definition rne (x : Q) : Z :=
  let f := Qfloor x in
  match Qcompare (x - inject_Z f) (1 # 2) with
  | Lt => f
  | Gt => f + 1
  | Eq => if Z.even f then f else f + 1
  end.

(** Exponent of the last place of [x]: 53 bits of precision, and the
    subnormal range below [2^-1022]. *)
Definition fexp (x : Q) : Z := Z.max (Qlog2 x - 52) (-1074).

Definition round_pos (x : Q) : Q :=
  let e := fexp x in
  (inject_Z (rne (x / Qpower 2 e)) * Qpower 2 e)%Q.

Definition round64 (x : Q) : Q :=
  match Qcompare x 0 with
  | Eq => 0%Q
  | Gt => round_pos x
  | Lt => Qopp (round_pos (Qopp x))
  end.

(** The largest finite double, [(2^53 - 1) * 2^971]. *)
Definition max_float : Q := inject_Z ((2 ^ 53 - 1) * 2 ^ 971).

(** One float operation: round the exact result, fail on overflow. *)
Definition fl (x : Q) : option Q :=
  let r := round64 x in
  if Qle_bool (Qabs r) max_float then Some r else None.

(** The rational denoted by a float of the Standard Library's specification
    of IEEE 754; used to check [round64] against that specification. *)
Definition Q_of_spec_float (f : spec_float) : Q :=
  match f with
  | S754_finite s m e =>
    ((if s then -1 else 1) * inject_Z (Zpos m) * Qpower 2 e)%Q
  | _ => 0%Q
  end.

Definition sf_of_pos (p : positive) : spec_float := S754_finite false p 0.

(** [int(x)] on a finite float: truncation towards zero. *)
Definition Qtrunc (x : Q) : Z :=
  if Qle_bool 0 x then Qfloor x else Qceiling x.

End Binary64.

(** ** Python primitives *)

Module Py.

Definition bind {A B : Type} (m : option A) (k : A -> option B) : option B :=
  match m with
  | Some a => k a
  | None => None
  end.

(** [a / b] on two ints: the correctly rounded quotient. *)
Definition truediv (a b : Z) : option Q :=
  if b =? 0 then None else Binary64.fl (inject_Z a / inject_Z b).

(** The implicit conversion of an int operand of a float operation. *)
Definition float_of_int (a : Z) : option Q := Binary64.fl (inject_Z a).

Definition fmul (x y : Q) : option Q := Binary64.fl (x * y).

Definition fadd (x y : Q) : option Q := Binary64.fl (x + y).

(** [x + a] with [x] a float and [a] an int. *)
Definition fadd_int (x : Q) (a : Z) : option Q :=
  bind (float_of_int a) (fun y => fadd x y).

(** The literal [0.6]: the double nearest to 3/5. *)
Definition lit_0_6 : Q := Binary64.round64 (6 # 10).

Definition int_of_float (x : Q) : Z := Binary64.Qtrunc x.

(** [sum(...)] over ints. *)
Definition sum (l : list Z) : Z := fold_left Z.add l 0.

(** [max(...)] over a non-empty sequence of ints; [ValueError] on [[]]. *)
Definition max (l : list Z) : option Z :=
  match l with
  | [] => None
  | x :: r => Some (fold_left Z.max r x)
  end.

Definition len {A : Type} (l : list A) : Z := Z.of_nat (List.length l).

(** [str.lower()], a builtin: any function from strings to strings. *)
Class Lower : Type := lower : string -> string.

(** [str.lower()] on ASCII text, where it folds A-Z and nothing else. *)
Definition lower_ascii (c : ascii) : ascii :=
  let n := nat_of_ascii c in
  if (65 <=? n)%nat && (n <=? 90)%nat then ascii_of_nat (n + 32) else c.

Fixpoint lower_ascii_text (s : string) : string :=
  match s with
  | EmptyString => EmptyString
  | String c r => String (lower_ascii c) (lower_ascii_text r)
  end.

(** The folding that evaluates the samples, all of them ASCII text. *)
#[global] Instance ascii_lower : Lower := lower_ascii_text.

(** [str.isascii()] *)
Fixpoint isascii (s : string) : bool :=
  match s with
  | EmptyString => true
  | String c r => (nat_of_ascii c <? 128)%nat && isascii r
  end.

(** [needle in hay] on strings. *)
Fixpoint str_in (needle hay : string) : bool :=
  String.prefix needle hay
  || match hay with
     | EmptyString => false
     | String _ r => str_in needle r
     end.

(** Truthiness of a string. *)
Definition str_truthy (s : string) : bool :=
  match s with
  | EmptyString => false
  | String _ _ => true
  end.

(** [x or ""] where [x] is a string or [None]. *)
Definition or_empty (x : option string) : string :=
  match x with
  | Some s => s
  | None => EmptyString
  end.

(** [str(z)] for an int. *)
Definition str_of_int (z : Z) : string := NilZero.string_of_int (Z.to_int z).

(** A value formatted in an f-string, [None] printing as its name. *)
Definition format_opt (x : option string) : string :=
  match x with
  | Some s => s
  | None => "None"%string
  end.

(** [list.sort(key=...)]: a stable sort, ascending in the key, that only
    ever asks whether one key is less than another. *)
Section Sort.
Context {A K : Type}.
Variable key : A -> K.
Variable ltb : K -> K -> bool.

Fixpoint insert (x : A) (l : list A) : list A :=
  match l with
  | [] => [x]
  | y :: r => if ltb (key y) (key x) then y :: insert x r else x :: y :: r
  end.

Fixpoint sort (l : list A) : list A :=
  match l with
  | [] => []
  | x :: r => insert x (sort r)
  end.

(** [x] may stand before [y]: the key of [y] is not below the key of [x]. *)
Definition before (x y : A) : Prop := ltb (key y) (key x) = false.

(** [x] is tied with [c]: neither key is below the other. *)
Definition tied (c x : A) : bool :=
  negb (ltb (key x) (key c)) && negb (ltb (key c) (key x)).

(** What any stable sort returns on [l]: the rows of [l], in ascending key
    order, each class of tied rows in its input order. *)
Definition stable_sort_of (l sorted : list A) : Prop :=
  Permutation sorted l
  /\ StronglySorted before sorted
  /\ forall c, filter (tied c) sorted = filter (tied c) l.
End Sort.

(** Comparison of the tuples [(bool, int)]: first components first, with
    [False < True]. *)
Definition bool_ltb (a b : bool) : bool := negb a && b.

Definition tuple_ltb (a b : bool * Z) : bool :=
  if Bool.eqb (fst a) (fst b) then snd a <? snd b else bool_ltb (fst a) (fst b).

End Py.

Notation "x <- m ;; k" := (Py.bind m (fun x => k))
  (at level 61, m at next level, right associativity).

(** ** Data model: a row of the [nodes] table *)

(** The primary key, an integer or a text identifier. *)
Inductive NodeId : Type :=
| IdInt (z : Z)
| IdStr (s : string).

Record Node : Type := mkNode {
  id : NodeId;
  celebrity_id : string;
  person_name : string;
  role : option string;
  relationship_type : option string;
  hop_distance : Z;
  warm_score : Z;
  why_warm : option string;
  contact_info : option string
}.

Definition str_of_id (i : NodeId) : string :=
  match i with
  | IdInt z => Py.str_of_int z
  | IdStr s => s
  end.

Definition option_string_dec (a b : option string) : {a = b} + {a <> b}.
Proof. decide equality. apply string_dec. Defined.

(** ** ACCESS SCORE CALCULATOR *)

Definition calculate_access_score (nodes : list Node) : option Z :=
  match nodes with
  | [] => Some 30
  | _ =>
    avg_warm <- Py.truediv (Py.sum (map warm_score nodes)) (Py.len nodes) ;;
    let direct_nodes := filter (fun n => hop_distance n =? 1) nodes in
    let direct_bonus := Z.min (Py.len direct_nodes * 5) 20 in
    let rel_types := nodup option_string_dec (map relationship_type nodes) in
    let variety_bonus := Py.len rel_types * 3 in
    base <- Py.fmul avg_warm Py.lit_0_6 ;;
    with_direct <- Py.fadd_int base direct_bonus ;;
    with_variety <- Py.fadd_int with_direct variety_bonus ;;
    let score := Py.int_of_float with_variety in
    Some (Z.min (Z.max score 10) 99)
  end.

(** ** BEST PATH FINDER *)

(** The [user_context] dict: the two keys the function reads, and whatever
    other keys the caller put in it ([background], [location], ...). *)
Record UserContext : Type := mkContext {
  ctx_industry : option string;
  ctx_connections : option (list string);
  ctx_other_keys : list string
}.

(** Truthiness of the dict: it has at least one key. *)
Definition context_truthy (c : UserContext) : bool :=
  match ctx_industry c, ctx_connections c, ctx_other_keys c with
  | None, None, [] => false
  | _, _, _ => true
  end.

(** [{**node, "final_score": score}] *)
Record ScoredNode : Type := mkScored {
  node : Node;
  final_score : Z
}.

Definition node_text {L : Py.Lower} (n : Node) : string :=
  Py.lower (Py.or_empty (role n) ++ " " ++ Py.or_empty (why_warm n) ++ " "
            ++ Py.or_empty (relationship_type n))%string.

Definition context_score {L : Py.Lower} (user_context : option UserContext)
  (n : Node) : Z :=
  let score := warm_score n in
  match user_context with
  | None => score
  | Some c =>
    if context_truthy c then
      let user_industry := Py.lower (Py.or_empty (ctx_industry c)) in
      let user_connections :=
        map Py.lower (match ctx_connections c with Some l => l | None => [] end) in
      let text := node_text n in
      let score :=
        if Py.str_truthy user_industry && Py.str_in user_industry text
        then score + 15 else score in
      fold_left
        (fun score conn => if Py.str_in conn text then score + 10 else score)
        user_connections score
    else score
  end.

Definition score_nodes {L : Py.Lower} (user_context : option UserContext)
  (nodes : list Node) : list ScoredNode :=
  map (fun n => mkScored n (context_score user_context n)) nodes.

(** [key=lambda x: (-x["hop_distance"] == 1, -x["final_score"])]; the unary
    minus binds tighter than [==]. *)
Definition sort_key (x : ScoredNode) : bool * Z :=
  (- hop_distance (node x) =? 1, - final_score x).

Definition rank (scored_nodes : list ScoredNode) : list ScoredNode :=
  Py.sort sort_key Py.tuple_ltb scored_nodes.

Record PathEntry : Type := mkEntry {
  pe_person_name : string;
  pe_role : option string;
  pe_relationship_type : option string;
  pe_hop : Z;
  pe_warm_score : Z;
  pe_why_warm : option string;
  pe_contact_info : option string;
  pe_node_id : NodeId
}.

Record NodeSummary : Type := mkSummary {
  ns_person_name : string;
  ns_role : option string;
  ns_warm_score : Z;
  ns_hop_distance : Z;
  ns_relationship_type : option string;
  ns_contact_info : option string;
  ns_node_id : NodeId
}.

(** The returned dict; the last two keys are absent from the result for an
    empty node set. *)
Record PathResult : Type := mkResult {
  path : list PathEntry;
  total_hops : Z;
  path_score : Z;
  entry_point : option PathEntry;
  all_nodes : option (list NodeSummary)
}.

Definition path_entry (x : ScoredNode) : PathEntry :=
  let n := node x in
  mkEntry (person_name n) (role n) (relationship_type n) (hop_distance n)
          (warm_score n) (why_warm n) (contact_info n) (id n).

Definition node_summary (x : ScoredNode) : NodeSummary :=
  let n := node x in
  mkSummary (person_name n) (role n) (warm_score n) (hop_distance n)
            (relationship_type n) (contact_info n) (id n).

(** The path: the entry node, then a bridge when the entry is not direct. *)
Definition build_path (scored_nodes : list ScoredNode) (entry_node : ScoredNode)
  : list PathEntry :=
  let path := [path_entry entry_node] in
  if 1 <? hop_distance (node entry_node) then
    let direct_nodes :=
      filter (fun n => hop_distance (node n) =? 1) scored_nodes in
    match direct_nodes with
    | bridge :: _ => path ++ [path_entry bridge]
    | [] => path
    end
  else path.

(** Everything after the sort; [scored_nodes[0]] raises on an empty list. *)
Definition recommend (scored_nodes : list ScoredNode) : option PathResult :=
  match scored_nodes with
  | [] => None
  | entry_node :: _ =>
    let path := build_path scored_nodes entry_node in
    top <- Py.max (map pe_hop path) ;;
    let total_hops := top + 1 in
    mean <- Py.truediv (Py.sum (map pe_warm_score path)) (Py.len path) ;;
    let path_score := Py.int_of_float mean in
    Some (mkResult path total_hops path_score (hd_error path)
                   (Some (map node_summary (firstn 8 scored_nodes))))
  end.

Definition empty_result : PathResult := mkResult [] 0 0 None None.

Definition find_best_path {L : Py.Lower} (nodes : list Node)
  (user_context : option UserContext) : option PathResult :=
  match nodes with
  | [] => Some empty_result
  | _ => recommend (rank (score_nodes user_context nodes))
  end.

(** A run of [find_best_path] in which [scored_nodes.sort(key=...)] is known
    by the contract of [list.sort] alone: it leaves the scored rows in
    ascending key order, rows of tied keys in their input order.  Whatever
    the sort does besides is free, and may differ from run to run. *)
Inductive find_best_path_run {L : Py.Lower} (nodes : list Node)
  (user_context : option UserContext) : option PathResult -> Prop :=
| run_no_nodes :
    nodes = [] ->
    find_best_path_run nodes user_context (Some empty_result)
| run_sorted (scored_nodes : list ScoredNode) :
    nodes <> [] ->
    Py.stable_sort_of sort_key Py.tuple_ltb
                      (score_nodes user_context nodes) scored_nodes ->
    find_best_path_run nodes user_context (recommend scored_nodes).

(** ** GRAPH DATA FOR VISUALIZATION *)

Record Color : Type := mkColor {
  background : string;
  border : string
}.

Record TargetVisual : Type := mkTargetVisual {
  tv_id : string;
  tv_label : string;
  tv_group : string;
  tv_size : Z;
  tv_color : Color;
  tv_font_size : Z;
  tv_font_bold : bool
}.

Record PersonVisual : Type := mkPersonVisual {
  pv_id : string;
  pv_label : string;
  pv_title : string;
  pv_group : option string;
  pv_size : Z;
  pv_color : Color;
  pv_hop_distance : Z;
  pv_warm_score : Z;
  pv_why_warm : option string;
  pv_contact_info : option string
}.

Inductive VisNode : Type :=
| VTarget (t : TargetVisual)
| VPerson (p : PersonVisual).

Record VisEdge : Type := mkEdge {
  edge_from : string;
  edge_to : string;
  edge_label : option string;
  edge_width : Z;
  edge_dashes : bool
}.

Record GraphData : Type := mkGraph {
  vis_nodes : list VisNode;
  vis_edges : list VisEdge
}.

Definition color_map : list (string * string) :=
  [ ("manager", "#FF6B6B"); ("investor", "#4ECDC4");
    ("collaborator", "#45B7D1"); ("media", "#96CEB4");
    ("colleague", "#FFEAA7"); ("partner", "#DDA0DD") ]%string.

(** [d.get(k, default)] on a dict literal; a [None] key is in no entry. *)
Fixpoint dict_get (d : list (string * string)) (k : option string)
  (default : string) : string :=
  match d with
  | [] => default
  | (k', v) :: r =>
    match k with
    | Some s => if String.eqb s k' then v else dict_get r k default
    | None => default
    end
  end.

Definition target_visual (celebrity_name : string) : VisNode :=
  VTarget (mkTargetVisual "celebrity" celebrity_name "celebrity" 40
             (mkColor "#FFD700" "#FFA500") 16 true).

Definition newline : string := String (ascii_of_nat 10) EmptyString.

Definition person_visual (n : Node) : VisNode :=
  let node_id := str_of_id (id n) in
  let color := dict_get color_map (relationship_type n) "#A0A0A0" in
  VPerson (mkPersonVisual
    node_id
    (person_name n)
    (Py.format_opt (role n) ++ newline ++ "Warm score: "
       ++ Py.str_of_int (warm_score n) ++ "/100")%string
    (relationship_type n)
    (20 + warm_score n / 10)
    (mkColor color color)
    (hop_distance n)
    (warm_score n)
    (why_warm n)
    (contact_info n)).

Definition person_edge (n : Node) : VisEdge :=
  let node_id := str_of_id (id n) in
  mkEdge node_id "celebrity" (relationship_type n)
         (if hop_distance n =? 1 then 3 else 1)
         (1 <? hop_distance n).

(** One turn of the loop: both lists grow at their end. *)
Definition graph_step (g : GraphData) (n : Node) : GraphData :=
  mkGraph (vis_nodes g ++ [person_visual n]) (vis_edges g ++ [person_edge n]).

Definition get_graph_data (nodes_data : list Node) (celebrity_name : string)
  : GraphData :=
  fold_left graph_step nodes_data (mkGraph [target_visual celebrity_name] []).

(** ** Vocabulary of the specification *)

(** The data model: a warm score lies in [0,100], a hop distance is at
    least 1.  A Python list holds at most [PY_SSIZE_T_MAX] items. *)
Definition warm_in_range (n : Node) : Prop := 0 <= warm_score n <= 100.

Definition hop_positive (n : Node) : Prop := 1 <= hop_distance n.

Definition PY_SSIZE_T_MAX : Z := 2 ^ 63 - 1.

Definition clamp (z : Z) : Z := Z.min (Z.max z 10) 99.

Definition direct_bonus (nodes : list Node) : Z :=
  Z.min (Py.len (filter (fun n => hop_distance n =? 1) nodes) * 5) 20.

Definition variety_bonus (nodes : list Node) : Z :=
  Py.len (nodup option_string_dec (map relationship_type nodes)) * 3.

(** The float that [calculate_access_score] hands to [int()], as a function
    of the four integers it is computed from. *)
Definition access_value (total n direct variety : Z) : option Q :=
  avg_warm <- Py.truediv total n ;;
  base <- Py.fmul avg_warm Py.lit_0_6 ;;
  with_direct <- Py.fadd_int base direct ;;
  Py.fadd_int with_direct variety.

(** The score in exact arithmetic, as the specification words it: the floor
    of [avg_warm * 0.6 + direct_bonus + variety_bonus], clamped. *)
Definition exact_value (nodes : list Node) : Q :=
  (inject_Z (Py.sum (map warm_score nodes)) / inject_Z (Py.len nodes) * (6 # 10)
   + inject_Z (direct_bonus nodes) + inject_Z (variety_bonus nodes))%Q.

Definition access_score_exact (nodes : list Node) : Z :=
  match nodes with
  | [] => 30
  | _ => clamp (Qfloor (exact_value nodes))
  end.

(** The node set with the warm score of row [i] replaced by [w]. *)
Definition with_warm_score (w : Z) (n : Node) : Node :=
  mkNode (id n) (celebrity_id n) (person_name n) (role n) (relationship_type n)
         (hop_distance n) w (why_warm n) (contact_info n).

Fixpoint set_warm_score (i : nat) (w : Z) (nodes : list Node) : list Node :=
  match nodes, i with
  | [], _ => []
  | n :: r, O => with_warm_score w n :: r
  | n :: r, S j => n :: set_warm_score j w r
  end.

(** The steps of [access_value] on inputs of the data model: each
    intermediate float is the rounding of the exact operation on the previous
    ones, and stays in the range shown. *)
Inductive trace (total n direct variety : Z) (t2 : Q) : Prop :=
| trace_intro (avg base d t1 v : Q) :
    avg = Binary64.round64 (inject_Z total / inject_Z n) ->
    base = Binary64.round64 (avg * Py.lit_0_6) ->
    d = Binary64.round64 (inject_Z direct) ->
    t1 = Binary64.round64 (base + d) ->
    v = Binary64.round64 (inject_Z variety) ->
    t2 = Binary64.round64 (t1 + v) ->
    (0 <= avg <= 100)%Q ->
    (0 <= base <= 61)%Q ->
    (0 <= d <= 20)%Q ->
    (0 <= t1 <= 81)%Q ->
    (0 <= v)%Q ->
    (0 <= t2)%Q ->
    trace total n direct variety t2.

(** ** Sample rows *)

Definition agent (i : Z) (name : string) (hop warm : Z) : Node :=
  mkNode (IdInt i) "c1" name (Some "Agent") (Some "manager") hop warm
         (Some "old friend") None.

Definition ada : Node := agent 1 "Ada" 2 20.
Definition bo : Node := agent 2 "Bo" 2 20.
Definition cy : Node := agent 3 "Cy" 2 15.

Definition three_lukewarm : list Node := [ada; bo; cy].

(** A stable sort on descending [final_score] alone. *)
Definition sort_by_final_score_desc (l : list ScoredNode) : list ScoredNode :=
  Py.sort (fun x => - final_score x) Z.ltb l.

(** The context boost with the text taken as the plain concatenation of the
    three fields and the industry tested as it comes. *)
Definition concatenated_text (n : Node) : string :=
  Py.lower (Py.or_empty (role n) ++ Py.or_empty (why_warm n)
            ++ Py.or_empty (relationship_type n))%string.

Definition context_score_on_concatenation
  (user_context : option UserContext) (n : Node) : Z :=
  match user_context with
  | None => warm_score n
  | Some c =>
    let text := concatenated_text n in
    warm_score n
    + match ctx_industry c with
      | Some s => if Py.str_in (Py.lower s) text then 15 else 0
      | None => 0
      end
    + 10 * Py.len (filter (fun conn => Py.str_in (Py.lower conn) text)
                          (match ctx_connections c with
                           | Some l => l
                           | None => []
                           end))
  end.

(** A path element that carries the eight fields of a row. *)
Definition describes (p : PathEntry) (n : Node) : Prop :=
  pe_person_name p = person_name n
  /\ pe_role p = role n
  /\ pe_relationship_type p = relationship_type n
  /\ pe_hop p = hop_distance n
  /\ pe_warm_score p = warm_score n
  /\ pe_why_warm p = why_warm n
  /\ pe_contact_info p = contact_info n
  /\ pe_node_id p = id n.

(** More sample rows and contexts. *)
Definition warm_but_far : Node := agent 1 "Ada" 2 80.
Definition cool_but_near : Node := agent 2 "Bo" 1 60.

Definition film_person : Node :=
  mkNode (IdInt 7) "c1" "Di" (Some "Film") (Some "investor") 1 50
         (Some "producer of her first short") None.

Definition film_context : UserContext :=
  mkContext (Some "film producer") (Some []) ["background"].

Definition blank_industry_context : UserContext :=
  mkContext (Some "") (Some []) ["background"].

(** ** JSON values shared by the services *)

(** An entry of a JSON object where a text is expected: missing, null, or
    the text. *)
Inductive Cell : Type :=
| Absent
| Null
| Text (s : string).

(** [d.get(key, "")] on a JSON object whose entry is missing, null or a
    text; [None] is Python's [None]. *)
Definition get_or_empty (c : Cell) : option string :=
  match c with
  | Absent => Some ""
  | Null => None
  | Text s => Some s
  end.

(** A news article as the scraper stores it. *)
Record Article : Type := mkArticle {
  title : option string;
  description : option string;
  url : option string;
  published_at : option string;
  source : option string
}.


(** ** More Python string and dict primitives *)

Module PyStr.

(** Whitespace of [str.strip()] and [str.split()] among ASCII characters. *)
Definition is_space (c : ascii) : bool :=
  let n := nat_of_ascii c in
  ((9 <=? n)%nat && (n <=? 13)%nat) || ((28 <=? n)%nat && (n <=? 32)%nat).

Fixpoint lstrip (s : string) : string :=
  match s with
  | EmptyString => EmptyString
  | String c r => if is_space c then lstrip r else s
  end.

Fixpoint rstrip (s : string) : string :=
  match s with
  | EmptyString => EmptyString
  | String c r =>
    match rstrip r with
    | EmptyString => if is_space c then EmptyString else String c EmptyString
    | String c' r' => String c (String c' r')
    end
  end.

(** [s.strip()] *)
Definition strip (s : string) : string := rstrip (lstrip s).

(** [s.split(sep)] for a one-character separator. *)
Fixpoint split (sep : ascii) (s : string) : list string :=
  match s with
  | EmptyString => [EmptyString]
  | String c r =>
    if Ascii.eqb c sep then EmptyString :: split sep r
    else match split sep r with
         | h :: t => String c h :: t
         | [] => [String c EmptyString]
         end
  end.

(** [s.partition(sep)] for a one-character separator: the text before the
    first separator, the separator found (or the empty string), the rest. *)
Fixpoint partition (sep : ascii) (s : string) : string * string * string :=
  match s with
  | EmptyString => (EmptyString, EmptyString, EmptyString)
  | String c r =>
    if Ascii.eqb c sep then (EmptyString, String sep EmptyString, r)
    else let '(a, m, b) := partition sep r in (String c a, m, b)
  end.

(** [s.replace(a, b)] for two one-character strings. *)
Fixpoint replace (a b : ascii) (s : string) : string :=
  match s with
  | EmptyString => EmptyString
  | String c r => String (if Ascii.eqb c a then b else c) (replace a b r)
  end.

(** [s.split()]: the maximal runs of non-whitespace characters. *)
Fixpoint words_from (cur : string) (s : string) : list string :=
  match s with
  | EmptyString =>
    match cur with
    | EmptyString => []
    | _ => [cur]
    end
  | String c r =>
    if is_space c then
      match cur with
      | EmptyString => words_from EmptyString r
      | _ => cur :: words_from EmptyString r
      end
    else words_from (cur ++ String c EmptyString) r
  end.

Definition words (s : string) : list string := words_from EmptyString s.

(** [d[k] = v] on a dict kept in insertion order. *)
Fixpoint dict_set (k v : string) (d : list (string * string))
  : list (string * string) :=
  match d with
  | [] => [(k, v)]
  | (k', v') :: r =>
    if String.eqb k k' then (k, v) :: r else (k', v') :: dict_set k v r
  end.

End PyStr.

(** ** services/ai.py *)

Definition newline_char : ascii := ascii_of_nat 10.

(** The loop that reads [KEY: value] lines out of the model's answer. *)
Definition parse_line (result : list (string * string)) (line : string)
  : list (string * string) :=
  if Py.str_in ":" line then
    let '(key, _, value) := PyStr.partition ":" line in
    let key := PyStr.replace " " "_" (Py.lower (PyStr.strip key)) in
    PyStr.dict_set key (PyStr.strip value) result
  else result.

Definition parse_response (text : string) : list (string * string) :=
  fold_left parse_line (PyStr.split newline_char (PyStr.strip text)) [].

Record Leverage : Type := mkLeverage {
  value_prop : string;
  ego_hook : string;
  curiosity_hook : string;
  subject_line : string
}.

(** [generate_leverage] from the text of the model's answer on. *)
Definition leverage_of_response (text : string) : Leverage :=
  let result := parse_response text in
  mkLeverage (dict_get result (Some "value_prop") "")
             (dict_get result (Some "ego_hook") "")
             (dict_get result (Some "curiosity_hook") "")
             (dict_get result (Some "subject_line") "").

Record OutreachMessage : Type := mkOutreach {
  om_message : string;
  om_subject_line : string;
  om_platform_note : string;
  om_tone_note : string;
  om_word_count : Z;
  om_hop_number : Z;
  om_target_person : string
}.

(** [draft_outreach_message] from the text of the model's answer on. *)
Definition outreach_of_response (text : string) (hop_number : Z)
  (target_person : string) : OutreachMessage :=
  let result := parse_response text in
  let message := dict_get result (Some "message") "" in
  mkOutreach message
             (dict_get result (Some "subject_line") "")
             (dict_get result (Some "platform_note") "Twitter DM or Email")
             (dict_get result (Some "tone_note") "warm")
             (Py.len (PyStr.words message))
             hop_number
             target_person.

Definition hop_labels : list (Z * string) :=
  [ (1, "FIRST (you sending directly)"); (2, "SECOND (forwarded intro)");
    (3, "THIRD (near the celebrity)") ].

Fixpoint labels_get (d : list (Z * string)) (k : Z) (default : string)
  : string :=
  match d with
  | [] => default
  | (k', v) :: r => if k =? k' then v else labels_get r k default
  end.

Definition _hop_label (hop : Z) : string :=
  labels_get hop_labels hop ("HOP " ++ Py.str_of_int hop).

(** The answer the prompt of [generate_leverage] asks for. *)
Definition leverage_answer (v e c s : string) : string :=
  "VALUE_PROP: " ++ v ++ String newline_char
  ("EGO_HOOK: " ++ e ++ String newline_char
  ("CURIOSITY_HOOK: " ++ c ++ String newline_char
  ("SUBJECT_LINE: " ++ s))).

(** A value that fits on one line and has no blank at either end. *)
Definition single_line (s : string) : Prop :=
  Py.str_in (String newline_char "") s = false.

Definition stripped (s : string) : Prop := PyStr.strip s = s.

(** An answer to the prompt of [draft_outreach_message] whose message runs
    over two lines and which gives no platform and no tone. *)
Definition two_line_answer (first second subject : string) : string :=
  "MESSAGE: " ++ first ++ String newline_char
  (second ++ String newline_char ("SUBJECT_LINE: " ++ subject)).

(** [enumerate(l)] *)
Definition enumerate {A : Type} (l : list A) : list (Z * A) :=
  combine (map Z.of_nat (seq 0 (List.length l))) l.

(** The [celebrity_data] row as far as the package reads it; [None] is a
    key that the row does not have. *)
Record CelebrityData : Type := mkCelebrityData {
  cd_bio : option string;
  cd_recent_news : option (list Article);
  cd_access_score : option Z
}.

Record IntelligencePackage : Type := mkPackage {
  pkg_leverage : Leverage;
  pkg_outreach_messages : list OutreachMessage;
  pkg_strategy : string
}.

(** The three calls of the language model.  Each of the functions below
    builds a prompt from its arguments and sends it; what comes back is a
    function of those arguments that the code does not control. *)
Section LanguageModel.
Variable leverage_text :
  string -> string -> list Article -> string -> string -> string.
Variable outreach_text :
  string -> string -> string -> option string -> option string -> string ->
  string -> option string -> Z -> string.
Variable strategy_text :
  string -> string -> Z -> list NodeSummary -> string -> string.

Definition generate_leverage (celebrity_name celebrity_bio : string)
  (recent_news : list Article) (user_background user_ask : string)
  : Leverage :=
  leverage_of_response
    (leverage_text celebrity_name celebrity_bio recent_news user_background
                   user_ask).

Definition draft_outreach_message (sender_name sender_background : string)
  (target_person : string) (target_role : option string)
  (target_relationship_to_celebrity : option string)
  (celebrity_name value_prop : string)
  (why_they_would_forward : option string) (hop_number : Z)
  : OutreachMessage :=
  outreach_of_response
    (outreach_text sender_name sender_background target_person target_role
                   target_relationship_to_celebrity celebrity_name value_prop
                   why_they_would_forward hop_number)
    hop_number target_person.

Definition generate_access_strategy (celebrity_name celebrity_bio : string)
  (access_score : Z) (best_nodes : list NodeSummary)
  (user_background : string) : string :=
  PyStr.strip
    (strategy_text celebrity_name celebrity_bio access_score best_nodes
                   user_background).

Definition generate_full_intelligence_package (celebrity_name : string)
  (celebrity_data : CelebrityData) (best_path : PathResult)
  (user_background user_ask : string) : IntelligencePackage :=
  let leverage :=
    generate_leverage celebrity_name
      (match cd_bio celebrity_data with Some b => b | None => "" end)
      (match cd_recent_news celebrity_data with Some l => l | None => [] end)
      user_background user_ask in
  let path_nodes := path best_path in
  let outreach_messages :=
    map (fun '(i, n) =>
           draft_outreach_message "Dat" user_background (pe_person_name n)
             (pe_role n) (pe_relationship_type n) celebrity_name
             (value_prop leverage) (pe_why_warm n) (i + 1))
        (enumerate (firstn 2 path_nodes)) in
  let strategy :=
    generate_access_strategy celebrity_name
      (match cd_bio celebrity_data with Some b => b | None => "" end)
      (match cd_access_score celebrity_data with Some a => a | None => 50 end)
      (match all_nodes best_path with Some l => l | None => [] end)
      user_background in
  mkPackage leverage outreach_messages strategy.
End LanguageModel.

(** ** routers/outreach.py: dashboard statistics *)

(** A number that is an [int] on one branch and a [float] on the other. *)
Inductive Number : Type :=
| Int (z : Z)
| Float (q : Q).

Module PyDict.

(** [k in d] *)
Fixpoint mem (k : string) (d : list (string * Z)) : bool :=
  match d with
  | [] => false
  | (k', _) :: r => String.eqb k k' || mem k r
  end.

(** [d[k]], with [KeyError] as [None]. *)
Fixpoint get (k : string) (d : list (string * Z)) : option Z :=
  match d with
  | [] => None
  | (k', v) :: r => if String.eqb k k' then Some v else get k r
  end.

(** [d[k] += n] on a key that [d] has. *)
Fixpoint add (k : string) (n : Z) (d : list (string * Z)) : list (string * Z) :=
  match d with
  | [] => []
  | (k', v) :: r =>
    if String.eqb k k' then (k', v + n) :: r else (k', v) :: add k n r
  end.

End PyDict.

(** [msg.get("status", "draft")]; [None] is the null of the column. *)
Definition status_of (msg : Cell) : option string :=
  match msg with
  | Absent => Some "draft"
  | Null => None
  | Text s => Some s
  end.

Definition count_status (stats : list (string * Z)) (msg : Cell)
  : list (string * Z) :=
  match status_of msg with
  | Some status =>
    if PyDict.mem status stats then PyDict.add status 1 stats else stats
  | None => stats
  end.

(** [round(x, 1)] on a float: the nearest multiple of one tenth, ties to the
    even one, then the double nearest to it. *)
Definition round1 (x : Q) : option Q :=
  Binary64.fl (inject_Z (Binary64.rne (x * 10)) / 10).

Definition reply_rate (replied sent : Z) : option Number :=
  if 0 <? sent then
    ratio <- Py.truediv replied sent ;;
    hundred <- Py.float_of_int 100 ;;
    percent <- Py.fmul ratio hundred ;;
    rounded <- round1 percent ;;
    Some (Float rounded)
  else Some (Int 0).

Record OutreachStats : Type := mkStats {
  stats : list (string * Z);
  reply_rate_percent : Number
}.

(** The counting loop. *)
Definition count_statuses (all_messages : list Cell) : list (string * Z) :=
  fold_left count_status all_messages
    [("draft", 0); ("sent", 0); ("replied", 0); ("total", Py.len all_messages)].

Definition get_outreach_stats (all_messages : list Cell) : option OutreachStats :=
  let stats := count_statuses all_messages in
  replied <- PyDict.get "replied" stats ;;
  sent <- PyDict.get "sent" stats ;;
  rate <- reply_rate replied sent ;;
  Some (mkStats stats rate).

(** The statuses that the service itself writes. *)
Definition known_status (msg : Cell) : Prop :=
  msg = Absent \/ msg = Text "draft" \/ msg = Text "sent"
  \/ msg = Text "replied".

Definition has_status (s : string) (msg : Cell) : bool :=
  match status_of msg with
  | Some t => String.eqb t s
  | None => false
  end.

Definition tally (s : string) (all_messages : list Cell) : Z :=
  Py.len (filter (has_status s) all_messages).

(** ** services/scraper.py *)

(** Truthiness of an environment variable: set and not empty. *)
Definition env_truthy (v : option string) : bool :=
  match v with
  | Some s => Py.str_truthy s
  | None => false
  end.

(** [l[:k]] *)
Definition slice_to {A : Type} (k : Z) (l : list A) : list A :=
  if 0 <=? k then firstn (Z.to_nat k) l
  else firstn (Z.to_nat (Py.len l + k)) l.

Definition double_quote : string := String (ascii_of_nat 34) "".

(** One entry of [organic_results] as the search API sends it. *)
Record RawResult : Type := mkRawResult {
  raw_title : Cell;
  raw_snippet : Cell;
  raw_link : Cell
}.

Record SearchResult : Type := mkSearchResult {
  sr_title : option string;
  sr_snippet : option string;
  sr_link : option string
}.

Record Connections : Type := mkConnections {
  manager : option string;
  investors : list (option string);
  podcast_appearances : list (option string);
  recent_events : list string;
  raw_results : list SearchResult
}.

(** The source of an article: missing, null, or an object with a name. *)
Inductive RawSource : Type :=
| SourceAbsent
| SourceNull
| SourceObject (name : Cell).

Record RawArticle : Type := mkRawArticle {
  art_title : Cell;
  art_description : Cell;
  art_url : Cell;
  art_publishedAt : Cell;
  art_source : RawSource
}.

(** The answer of the news API: its [status] and its [articles]. *)
Record NewsData : Type := mkNewsData {
  news_status : Cell;
  news_articles : option (list RawArticle)
}.

Definition _mock_news (celebrity_name : string) : list Article :=
  [ mkArticle
      (Some (celebrity_name ++ " discusses future plans in new interview"))
      (Some (celebrity_name
             ++ " shared insights about upcoming projects and business ventures."))
      (Some "") (Some "2025-02-20") (Some "TechCrunch");
    mkArticle
      (Some (celebrity_name ++ " seen at major tech conference"))
      (Some "Attended multiple panels and met with investors.")
      (Some "") (Some "2025-02-15") (Some "Bloomberg") ].

(** [article.get("source", {}).get("name", "")]; a null source raises. *)
Definition source_name (s : RawSource) : option (option string) :=
  match s with
  | SourceAbsent => Some (Some "")
  | SourceNull => None
  | SourceObject name => Some (get_or_empty name)
  end.

Definition read_article (a : RawArticle) : option Article :=
  name <- source_name (art_source a) ;;
  Some (mkArticle (get_or_empty (art_title a))
                  (get_or_empty (art_description a))
                  (get_or_empty (art_url a))
                  (get_or_empty (art_publishedAt a))
                  name).

(** The loop over the articles; an exception in one turn ends it. *)
Fixpoint read_articles (l : list RawArticle) : option (list Article) :=
  match l with
  | [] => Some []
  | a :: r =>
    x <- read_article a ;;
    rest <- read_articles r ;;
    Some (x :: rest)
  end.

(** The two web APIs.  A request is a function of the query (or name), the
    key and the page size; [None] is any exception of the request or of the
    decoding of its answer. *)
Section WebApis.
Variable NEWS_API_KEY : option string.
Variable SERP_API_KEY : option string.
Variable news_request : string -> Z -> option NewsData.
Variable serp_request : string -> option (option (list RawResult)).

Definition get_recent_news (celebrity_name : string) (max_articles : Z)
  : list Article :=
  if negb (env_truthy NEWS_API_KEY) then _mock_news celebrity_name
  else
    match news_request celebrity_name max_articles with
    | None => _mock_news celebrity_name
    | Some data =>
      if match news_status data with
         | Text s => negb (String.eqb s "ok")
         | _ => true
         end
      then _mock_news celebrity_name
      else
        match read_articles
                (slice_to max_articles
                   (match news_articles data with Some l => l | None => [] end))
        with
        | Some articles => articles
        | None => _mock_news celebrity_name
        end
    end.

Definition search_google (query : string) : list SearchResult :=
  if negb (env_truthy SERP_API_KEY) then []
  else
    match serp_request query with
    | None => []
    | Some organic_results =>
      map (fun result =>
             mkSearchResult (get_or_empty (raw_title result))
                            (get_or_empty (raw_snippet result))
                            (get_or_empty (raw_link result)))
          (slice_to 5 (match organic_results with Some l => l | None => [] end))
    end.

Definition find_celebrity_connections (celebrity_name : string) : Connections :=
  let manager_results :=
    search_google (double_quote ++ celebrity_name ++ double_quote
                   ++ " manager OR agent OR publicist") in
  let '(manager, raw_results) :=
    match manager_results with
    | first :: _ => (sr_snippet first, manager_results)
    | [] => (None, [])
    end in
  let investor_results :=
    search_google (double_quote ++ celebrity_name ++ double_quote
                   ++ " investor OR " ++ double_quote ++ "backed by"
                   ++ double_quote ++ " OR " ++ double_quote ++ "invested in"
                   ++ double_quote) in
  let investors := map sr_snippet (slice_to 3 investor_results) in
  let podcast_results :=
    search_google (double_quote ++ celebrity_name ++ double_quote
                   ++ " podcast interview 2024 OR 2025") in
  let podcast_appearances := map sr_title (slice_to 3 podcast_results) in
  mkConnections manager investors podcast_appearances [] raw_results.
End WebApis.

(** The last line of the answer after the strip of the whole text. *)
Definition last_line (s : string) : string :=
  match s with
  | EmptyString => "SUBJECT_LINE:"
  | String _ _ => "SUBJECT_LINE: " ++ s
  end.

(** * Properties *)

(** ** Rounding to binary64 is monotone *)

Module Binary64Facts.
Import Binary64.

Lemma pow2_pos (e : Z) : (0 < 2 ^ e)%Q.
Proof. apply Qpower_0_lt. reflexivity. Qed.

Lemma pow2_add (a b : Z) : (2 ^ (a + b) == 2 ^ a * 2 ^ b)%Q.
Proof. apply Qpower_plus. discriminate. Qed.

Lemma pow2_le (a b : Z) : a <= b -> (2 ^ a <= 2 ^ b)%Q.
Proof. intros H. apply Qpower_le_compat_l; [exact H | discriminate]. Qed.

Lemma pow2_lt_inv (a b : Z) : (2 ^ a < 2 ^ b)%Q -> a < b.
Proof. intros H. apply (Qpower_lt_compat_l_inv 2); [exact H | reflexivity]. Qed.

Lemma pow2_inject (n : Z) : 0 <= n -> (inject_Z (2 ^ n) == 2 ^ n)%Q.
Proof. intros H. apply (Zpower_Qpower 2 n H). Qed.

Lemma Qlog2_bounds (x : Q) :
  (0 < x)%Q -> (2 ^ Qlog2 x <= x)%Q /\ (x < 2 ^ (Qlog2 x + 1))%Q.
Proof.
  intros Hx. destruct x as [a b].
  assert (Ha : 0 < a).
  { unfold Qlt in Hx. simpl in Hx. lia. }
  unfold Qlog2. cbn [Qnum Qden].
  set (la := Z.log2 a). set (lb := Z.log2 (Z.pos b)).
  destruct (Z.log2_spec a Ha) as [Ha1 Ha2]. fold la in Ha1, Ha2.
  destruct (Z.log2_spec (Z.pos b) (Pos2Z.is_pos b)) as [Hb1 Hb2].
  fold lb in Hb1, Hb2.
  assert (Hla : 0 <= la) by apply Z.log2_nonneg.
  assert (Hlb : 0 <= lb) by apply Z.log2_nonneg.
  set (x := a # b).
  assert (Hxb : (x * inject_Z (Z.pos b) == inject_Z a)%Q).
  { unfold x, Qeq, Qmult, inject_Z. simpl. lia. }
  assert (HB : (0 < inject_Z (Z.pos b))%Q).
  { unfold Qlt, inject_Z. simpl. lia. }
  (* inject the integer bounds *)
  assert (QA1 : (2 ^ la <= inject_Z a)%Q).
  { rewrite <- pow2_inject by lia. rewrite <- Zle_Qle. exact Ha1. }
  assert (QA2 : (inject_Z a < 2 ^ (la + 1))%Q).
  { rewrite <- pow2_inject by lia. rewrite <- Zlt_Qlt. fold (Z.succ la). exact Ha2. }
  assert (QB1 : (2 ^ lb <= inject_Z (Z.pos b))%Q).
  { rewrite <- pow2_inject by lia. rewrite <- Zle_Qle. exact Hb1. }
  assert (QB2 : (inject_Z (Z.pos b) < 2 ^ (lb + 1))%Q).
  { rewrite <- pow2_inject by lia. rewrite <- Zlt_Qlt. fold (Z.succ lb). exact Hb2. }
  assert (Hup : (x < 2 ^ (la - lb + 1))%Q).
  { assert (E : (2 ^ (la + 1) == 2 ^ (la - lb + 1) * 2 ^ lb)%Q).
    { rewrite <- pow2_add. f_equiv. lia. }
    pose proof (pow2_pos (la - lb + 1)) as P1.
    pose proof (pow2_pos lb) as P2.
    rewrite E in QA2. rewrite <- Hxb in QA2.
    nra. }
  assert (Hlo : (2 ^ (la - lb - 1) <= x)%Q).
  { assert (E : (2 ^ la == 2 ^ (la - lb - 1) * 2 ^ (lb + 1))%Q).
    { rewrite <- pow2_add. f_equiv. lia. }
    pose proof (pow2_pos (la - lb - 1)) as P1.
    pose proof (pow2_pos (lb + 1)) as P2.
    rewrite E in QA1. rewrite <- Hxb in QA1.
    nra. }
  destruct (Qle_bool (2 ^ (la - lb)) x) eqn:Hc.
  - apply Qle_bool_iff in Hc. split; assumption.
  - split; [exact Hlo|].
    replace (la - lb - 1 + 1) with (la - lb) by lia.
    apply Qnot_le_lt. intros Hn. apply Qle_bool_iff in Hn. congruence.
Qed.


Lemma Qlog2_mono (x y : Q) : (0 < x)%Q -> (x <= y)%Q -> Qlog2 x <= Qlog2 y.
Proof.
  intros Hx Hxy.
  destruct (Qlog2_bounds x Hx) as [Lx _].
  destruct (Qlog2_bounds y (Qlt_le_trans _ _ _ Hx Hxy)) as [_ Uy].
  assert (H : (2 ^ Qlog2 x < 2 ^ (Qlog2 y + 1))%Q) by lra.
  apply pow2_lt_inv in H. lia.
Qed.

Lemma rne_cases (x : Q) :
  let f := Qfloor x in
  (rne x = f /\ (x - inject_Z f <= 1 # 2)%Q) \/
  (rne x = f + 1 /\ (1 # 2 <= x - inject_Z f)%Q).
Proof.
  intros f. unfold rne. fold f.
  destruct (Qcompare_spec (x - inject_Z f) (1 # 2)) as [E | L | G].
  - destruct (Z.even f); [left | right]; split; auto; rewrite E; apply Qle_refl.
  - left. split; auto. apply Qlt_le_weak; exact L.
  - right. split; auto. apply Qlt_le_weak; exact G.
Qed.

Lemma rne_mono (x y : Q) : (x <= y)%Q -> rne x <= rne y.
Proof.
  intros Hxy.
  pose proof (Qfloor_resp_le x y Hxy) as Hf.
  pose proof (Qfloor_le x) as Fx. pose proof (Qlt_floor x) as Gx.
  pose proof (Qfloor_le y) as Fy. pose proof (Qlt_floor y) as Gy.
  destruct (Z.eq_dec (Qfloor x) (Qfloor y)) as [E | NE].
  - unfold rne. rewrite <- E.
    destruct (Qcompare_spec (x - inject_Z (Qfloor x)) (1 # 2)) as [Ex | Lx | Gx'];
    destruct (Qcompare_spec (y - inject_Z (Qfloor x)) (1 # 2)) as [Ey | Ly | Gy'];
    try (destruct (Z.even (Qfloor x))); try lia; try lra.
  - assert (Hlt : Qfloor x + 1 <= Qfloor y) by lia.
    destruct (rne_cases x) as [[Rx _] | [Rx _]];
    destruct (rne_cases y) as [[Ry _] | [Ry _]]; lia.
Qed.

Lemma rne_inject (k : Z) : rne (inject_Z k) = k.
Proof.
  unfold rne. rewrite Qfloor_Z.
  destruct (Qcompare_spec (inject_Z k - inject_Z k) (1 # 2)) as [E | L | G].
  - exfalso. lra.
  - reflexivity.
  - exfalso. lra.
Qed.

Lemma rne_ge (k : Z) (x : Q) : (inject_Z k <= x)%Q -> k <= rne x.
Proof. intros H. rewrite <- (rne_inject k). apply rne_mono; exact H. Qed.

Lemma rne_le (k : Z) (x : Q) : (x <= inject_Z k)%Q -> rne x <= k.
Proof. intros H. rewrite <- (rne_inject k). apply rne_mono; exact H. Qed.

Lemma fexp_mono (x y : Q) : (0 < x)%Q -> (x <= y)%Q -> fexp x <= fexp y.
Proof. intros Hx Hxy. unfold fexp. pose proof (Qlog2_mono x y Hx Hxy). lia. Qed.

Lemma round_pos_nonneg (x : Q) : (0 < x)%Q -> (0 <= round_pos x)%Q.
Proof.
  intros Hx. unfold round_pos.
  pose proof (pow2_pos (fexp x)) as P.
  assert (0 <= rne (x / 2 ^ fexp x)).
  { apply rne_ge. change (inject_Z 0) with 0%Q.
    apply Qlt_le_weak. apply Qlt_shift_div_l; [exact P | lra]. }
  assert ((0 <= inject_Z (rne (x / 2 ^ fexp x)))%Q).
  { change 0%Q with (inject_Z 0). rewrite <- Zle_Qle. exact H. }
  nra.
Qed.

Lemma round_pos_mono (x y : Q) :
  (0 < x)%Q -> (x <= y)%Q -> (round_pos x <= round_pos y)%Q.
Proof.
  intros Hx Hxy.
  assert (Hy : (0 < y)%Q) by lra.
  pose proof (fexp_mono x y Hx Hxy) as He.
  unfold round_pos.
  set (ex := fexp x) in *. set (ey := fexp y) in *.
  pose proof (pow2_pos ex) as Px. pose proof (pow2_pos ey) as Py.
  destruct (Z.eq_dec ex ey) as [E | NE].
  - rewrite <- E.
    assert (Hq : (x / 2 ^ ex <= y / 2 ^ ex)%Q).
    { apply Qmult_le_compat_r; [exact Hxy |].
      apply Qlt_le_weak. apply Qinv_lt_0_compat. exact Px. }
    apply rne_mono in Hq. rewrite Zle_Qle in Hq.
    nra.
  - assert (Hlt : ex < ey) by lia.
    (* y sits in a higher binade: x < 2^(ex+53) <= 2^(ey+52) <= y *)
    assert (Hey : ey = Qlog2 y - 52).
    { unfold ey, fexp in *. unfold ex, fexp in Hlt. lia. }
    assert (Hex : Qlog2 x - 52 <= ex).
    { unfold ex, fexp. lia. }
    destruct (Qlog2_bounds x Hx) as [_ Ux].
    destruct (Qlog2_bounds y Hy) as [Ly _].
    assert (Hxs : (x / 2 ^ ex <= inject_Z (2 ^ 53))%Q).
    { apply Qle_shift_div_r; [exact Px |].
      rewrite pow2_inject by lia. rewrite <- pow2_add.
      apply Qlt_le_weak. eapply Qlt_le_trans; [exact Ux |].
      apply pow2_le. lia. }
    assert (Hys : (inject_Z (2 ^ 52) <= y / 2 ^ ey)%Q).
    { apply Qle_shift_div_l; [exact Py |].
      rewrite pow2_inject by lia. rewrite <- pow2_add.
      eapply Qle_trans; [| exact Ly].
      apply pow2_le. lia. }
    apply rne_le in Hxs. apply rne_ge in Hys.
    rewrite Zle_Qle in Hxs, Hys.
    rewrite pow2_inject in Hxs, Hys by lia.
    assert (Hstep : (2 ^ 53 * 2 ^ ex <= 2 ^ 52 * 2 ^ ey)%Q).
    { rewrite <- !pow2_add. apply pow2_le. lia. }
    pose proof (pow2_pos 52) as P52. pose proof (pow2_pos 53) as P53.
    set (mx := inject_Z (rne (x / 2 ^ ex))) in *.
    set (my := inject_Z (rne (y / 2 ^ ey))) in *.
    apply Qle_trans with (2 ^ 53 * 2 ^ ex)%Q.
    + apply Qmult_le_compat_r; [exact Hxs | lra].
    + apply Qle_trans with (2 ^ 52 * 2 ^ ey)%Q; [exact Hstep |].
      apply Qmult_le_compat_r; [exact Hys | lra].
Qed.

Lemma round64_mono (x y : Q) : (x <= y)%Q -> (round64 x <= round64 y)%Q.
Proof.
  intros Hxy. unfold round64.
  destruct (Qcompare_spec x 0) as [Ex | Lx | Gx];
  destruct (Qcompare_spec y 0) as [Ey | Ly | Gy]; try lra.
  - apply round_pos_nonneg; exact Gy.
  - pose proof (round_pos_nonneg (- x)). lra.
  - apply Qopp_le_compat. apply round_pos_mono; lra.
  - pose proof (round_pos_nonneg (- x)). pose proof (round_pos_nonneg y). lra.
  - apply round_pos_mono; assumption.
Qed.

Lemma round64_nonneg (x : Q) : (0 <= x)%Q -> (0 <= round64 x)%Q.
Proof.
  intros Hx. unfold round64.
  destruct (Qcompare_spec x 0) as [E | L | G]; try lra.
  apply round_pos_nonneg; exact G.
Qed.

Lemma rne_error (z : Q) :
  (z - (1 # 2) <= inject_Z (rne z))%Q /\ (inject_Z (rne z) <= z + (1 # 2))%Q.
Proof.
  pose proof (Qfloor_le z) as F. pose proof (Qlt_floor z) as G.
  rewrite inject_Z_plus in G. change (inject_Z 1) with 1%Q in G.
  destruct (rne_cases z) as [[R B] | [R B]]; rewrite R.
  - lra.
  - rewrite inject_Z_plus. change (inject_Z 1) with 1%Q. lra.
Qed.

(** Below [2^8] a rounding moves its argument by at most [2^-46]. *)
Lemma round_pos_error (x : Q) :
  (0 < x)%Q -> (x < 256)%Q ->
  (x - (1 # 70368744177664) <= round_pos x)%Q
  /\ (round_pos x <= x + (1 # 70368744177664))%Q.
Proof.
  intros Hx Hlt.
  assert (He : fexp x <= -45).
  { destruct (Qlog2_bounds x Hx) as [L _].
    assert (H : (2 ^ Qlog2 x < 2 ^ 8)%Q).
    { eapply Qle_lt_trans; [exact L |]. exact Hlt. }
    apply pow2_lt_inv in H. unfold fexp. lia. }
  unfold round_pos. set (e := fexp x) in *.
  pose proof (pow2_pos e) as P.
  pose proof (pow2_le e (-45) He) as Pe.
  change (2 ^ (-45))%Q with (/ 35184372088832)%Q in Pe.
  assert (Pe' : (2 ^ e <= 1 # 35184372088832)%Q).
  { eapply Qle_trans; [exact Pe |]. apply Qle_refl. }
  destruct (rne_error (x / 2 ^ e)) as [Lo Hi].
  set (m := inject_Z (rne (x / 2 ^ e))) in *.
  assert (Ex : (x / 2 ^ e * 2 ^ e == x)%Q).
  { field. intros Z0. rewrite Z0 in P. apply (Qlt_irrefl 0). exact P. }
  set (q := (x / 2 ^ e)%Q) in *.
  split; nra.
Qed.

Lemma round64_error (x : Q) :
  (0 <= x)%Q -> (x < 256)%Q ->
  (x - (1 # 70368744177664) <= round64 x)%Q
  /\ (round64 x <= x + (1 # 70368744177664))%Q.
Proof.
  intros Hx Hlt. unfold round64.
  destruct (Qcompare_spec x 0) as [E | L | G]; try lra.
  apply round_pos_error; assumption.
Qed.

Lemma Qtrunc_nonneg (x : Q) : (0 <= x)%Q -> Qtrunc x = Qfloor x.
Proof.
  intros Hx. unfold Qtrunc.
  destruct (Qle_bool 0 x) eqn:E; [reflexivity |].
  apply Qle_bool_iff in Hx. congruence.
Qed.

Lemma Qtrunc_mono (x y : Q) : (x <= y)%Q -> Qtrunc x <= Qtrunc y.
Proof.
  intros Hxy. unfold Qtrunc.
  destruct (Qle_bool 0 x) eqn:Ex; destruct (Qle_bool 0 y) eqn:Ey.
  - apply Qfloor_resp_le; exact Hxy.
  - apply Qle_bool_iff in Ex.
    assert (Hy : (0 <= y)%Q) by lra.
    apply Qle_bool_iff in Hy. congruence.
  - assert (Hx : (x < 0)%Q).
    { apply Qnot_le_lt. intros H. apply Qle_bool_iff in H. congruence. }
    apply Qle_bool_iff in Ey.
    assert (H1 : Qceiling x <= 0).
    { change 0 with (Qceiling (inject_Z 0)) at 1. apply Qceiling_resp_le.
      change (inject_Z 0) with 0%Q. lra. }
    assert (H2 : 0 <= Qfloor y).
    { change 0 with (Qfloor (inject_Z 0)) at 1. apply Qfloor_resp_le.
      exact Ey. }
    lia.
  - apply Qceiling_resp_le; exact Hxy.
Qed.

Lemma fl_Some (x r : Q) : fl x = Some r -> r = round64 x.
Proof.
  unfold fl. destruct (Qle_bool (Qabs (round64 x)) max_float); congruence.
Qed.

Lemma fl_mono (x y a b : Q) :
  fl x = Some a -> fl y = Some b -> (x <= y)%Q -> (a <= b)%Q.
Proof.
  intros Ha Hb Hxy. apply fl_Some in Ha, Hb. subst.
  apply round64_mono; exact Hxy.
Qed.

(** No overflow below a bound whose own rounding is finite. *)
Lemma fl_bounded (x hi : Q) :
  (0 <= x)%Q -> (x <= hi)%Q -> (round64 hi <= max_float)%Q ->
  fl x = Some (round64 x).
Proof.
  intros Hx Hhi Hmax. unfold fl.
  pose proof (round64_nonneg x Hx) as N.
  pose proof (round64_mono x hi Hhi) as M.
  rewrite Qabs_pos by exact N.
  destruct (Qle_bool (round64 x) max_float) eqn:E; [reflexivity |].
  assert (H : (round64 x <= max_float)%Q) by lra.
  apply Qle_bool_iff in H. congruence.
Qed.

(** [round64] computes what the Standard Library's [SpecFloat] computes, on
    the operations that decide the score of warm scores 20, 20 and 15: the
    quotient 55 / 3, the literal 0.6, their product, and the sum with 3. *)
Example round64_agrees_on_quotient :
  (round64 (55 # 3)
   == Q_of_spec_float (SFdiv 53 1024 (sf_of_pos 55) (sf_of_pos 3)))%Q.
Proof. vm_compute. reflexivity. Qed.

Example round64_agrees_on_literal :
  (round64 (6 # 10)
   == Q_of_spec_float (SFdiv 53 1024 (sf_of_pos 6) (sf_of_pos 10)))%Q.
Proof. vm_compute. reflexivity. Qed.

Example round64_agrees_on_product :
  (round64 (round64 (55 # 3) * round64 (6 # 10))
   == Q_of_spec_float
        (SFmul 53 1024 (SFdiv 53 1024 (sf_of_pos 55) (sf_of_pos 3))
                       (SFdiv 53 1024 (sf_of_pos 6) (sf_of_pos 10))))%Q.
Proof. vm_compute. reflexivity. Qed.

Example round64_agrees_on_sum :
  (round64 (round64 (round64 (55 # 3) * round64 (6 # 10)) + 3)
   == Q_of_spec_float
        (SFadd 53 1024
           (SFmul 53 1024 (SFdiv 53 1024 (sf_of_pos 55) (sf_of_pos 3))
                          (SFdiv 53 1024 (sf_of_pos 6) (sf_of_pos 10)))
           (sf_of_pos 3)))%Q.
Proof. vm_compute. reflexivity. Qed.

End Binary64Facts.

(** ** The access score *)

Module AccessScore.
Import Binary64 Binary64Facts.

Lemma sum_from (l : list Z) (a : Z) : fold_left Z.add l a = a + Py.sum l.
Proof.
  unfold Py.sum. revert a.
  induction l as [| x l IH]; intros a; simpl.
  - lia.
  - rewrite (IH (a + x)), (IH x). lia.
Qed.

Lemma sum_cons (x : Z) (l : list Z) : Py.sum (x :: l) = x + Py.sum l.
Proof. unfold Py.sum at 1. simpl. apply sum_from. Qed.

Lemma len_cons {A : Type} (x : A) (l : list A) : Py.len (x :: l) = 1 + Py.len l.
Proof. unfold Py.len. simpl List.length. lia. Qed.

Lemma len_nonneg {A : Type} (l : list A) : 0 <= Py.len l.
Proof. unfold Py.len. lia. Qed.

Lemma sum_in_range (nodes : list Node) :
  Forall warm_in_range nodes ->
  0 <= Py.sum (map warm_score nodes) <= 100 * Py.len nodes.
Proof.
  induction 1 as [| n r Hn Hr IH]; simpl map.
  - unfold Py.sum, Py.len. simpl. lia.
  - rewrite sum_cons, len_cons. unfold warm_in_range in Hn. lia.
Qed.

Lemma direct_bonus_range (nodes : list Node) : 0 <= direct_bonus nodes <= 20.
Proof.
  unfold direct_bonus.
  pose proof (len_nonneg (filter (fun n => hop_distance n =? 1) nodes)). lia.
Qed.

Lemma variety_bonus_range (nodes : list Node) :
  0 <= variety_bonus nodes <= 3 * Py.len nodes.
Proof.
  unfold variety_bonus, Py.len.
  pose proof (NoDup_incl_length
                (NoDup_nodup option_string_dec (map relationship_type nodes))
                (fun x H => proj1 (nodup_In option_string_dec _ x) H)) as H.
  rewrite length_map in H. lia.
Qed.

(** The function is [access_value] followed by [int()] and the clamp. *)
Lemma calculate_access_score_unfold (nodes : list Node) :
  nodes <> [] ->
  calculate_access_score nodes =
  (x <- access_value (Py.sum (map warm_score nodes)) (Py.len nodes)
                     (direct_bonus nodes) (variety_bonus nodes) ;;
   Some (clamp (Py.int_of_float x))).
Proof.
  intros Hne. destruct nodes as [| n r]; [congruence |].
  unfold calculate_access_score, access_value, direct_bonus, variety_bonus, clamp.
  destruct (Py.truediv _ _) as [avg |]; [| reflexivity]. cbn [Py.bind].
  destruct (Py.fmul _ _) as [base |]; [| reflexivity]. cbn [Py.bind].
  destruct (Py.fadd_int base _) as [t1 |]; [| reflexivity]. cbn [Py.bind].
  destruct (Py.fadd_int t1 _) as [t2 |]; reflexivity.
Qed.

Lemma lit_0_6_bounds :
  ((6 # 10) - (1 # 18014398509481984) <= Py.lit_0_6)%Q /\ (Py.lit_0_6 <= 6 # 10)%Q.
Proof. split; vm_compute; discriminate. Qed.

Lemma round64_const_100 : (round64 100 == 100)%Q.
Proof. vm_compute. reflexivity. Qed.

Lemma round64_const_61 : (round64 61 == 61)%Q.
Proof. vm_compute. reflexivity. Qed.

Lemma round64_const_20 : (round64 20 == 20)%Q.
Proof. vm_compute. reflexivity. Qed.

Lemma round64_const_81 : (round64 81 == 81)%Q.
Proof. vm_compute. reflexivity. Qed.

Lemma round64_const_big :
  (round64 (inject_Z (3 * 2 ^ 63)) == inject_Z (3 * 2 ^ 63))%Q.
Proof. vm_compute. reflexivity. Qed.

Lemma finite_100 : (round64 100 <= max_float)%Q.
Proof. vm_compute. discriminate. Qed.

Lemma finite_61 : (round64 61 <= max_float)%Q.
Proof. vm_compute. discriminate. Qed.

Lemma finite_20 : (round64 20 <= max_float)%Q.
Proof. vm_compute. discriminate. Qed.

Lemma finite_81 : (round64 81 <= max_float)%Q.
Proof. vm_compute. discriminate. Qed.

Lemma finite_big : (round64 (inject_Z (3 * 2 ^ 63)) <= max_float)%Q.
Proof. vm_compute. discriminate. Qed.

Lemma finite_top : (round64 (81 + inject_Z (3 * 2 ^ 63)) <= max_float)%Q.
Proof. vm_compute. discriminate. Qed.

Lemma quotient_range (total n : Z) :
  0 < n -> 0 <= total <= 100 * n ->
  (0 <= inject_Z total / inject_Z n <= 100)%Q.
Proof.
  intros Hn [H0 H1].
  assert (N : (0 < inject_Z n)%Q).
  { change 0%Q with (inject_Z 0). rewrite <- Zlt_Qlt. exact Hn. }
  assert (T0 : (0 <= inject_Z total)%Q).
  { change 0%Q with (inject_Z 0). rewrite <- Zle_Qle. exact H0. }
  assert (T1 : (inject_Z total <= 100 * inject_Z n)%Q).
  { change 100%Q with (inject_Z 100). rewrite <- inject_Z_mult.
    rewrite <- Zle_Qle. exact H1. }
  split.
  - apply Qle_shift_div_l; [exact N | lra].
  - apply Qle_shift_div_r; [exact N | lra].
Qed.

Lemma access_value_trace (total n direct variety : Z) :
  0 < n -> 0 <= total <= 100 * n -> 0 <= direct <= 20 ->
  0 <= variety <= 3 * 2 ^ 63 ->
  exists t2, access_value total n direct variety = Some t2
             /\ trace total n direct variety t2.
Proof.
  intros Hn Ht Hd Hv.
  pose proof (quotient_range total n Hn Ht) as [Q0 Q1].
  set (q := (inject_Z total / inject_Z n)%Q) in *.
  destruct lit_0_6_bounds as [C0 C1].
  (* avg_warm *)
  pose proof (fl_bounded q 100 Q0 Q1 finite_100) as E1.
  pose proof (round64_nonneg q Q0) as A0.
  pose proof (round64_mono q 100 Q1) as A1. rewrite round64_const_100 in A1.
  set (a := round64 q) in *.
  (* base *)
  assert (M0 : (0 <= a * Py.lit_0_6)%Q) by nra.
  assert (M1 : (a * Py.lit_0_6 <= 61)%Q) by nra.
  pose proof (fl_bounded _ 61 M0 M1 finite_61) as E2.
  pose proof (round64_nonneg _ M0) as B0.
  pose proof (round64_mono _ 61 M1) as B1. rewrite round64_const_61 in B1.
  set (b := round64 (a * Py.lit_0_6)) in *.
  (* direct bonus *)
  assert (D0 : (0 <= inject_Z direct)%Q).
  { change 0%Q with (inject_Z 0). rewrite <- Zle_Qle. lia. }
  assert (D1 : (inject_Z direct <= 20)%Q).
  { change 20%Q with (inject_Z 20). rewrite <- Zle_Qle. lia. }
  pose proof (fl_bounded _ 20 D0 D1 finite_20) as E3.
  pose proof (round64_nonneg _ D0) as D0'.
  pose proof (round64_mono _ 20 D1) as D1'. rewrite round64_const_20 in D1'.
  set (d := round64 (inject_Z direct)) in *.
  assert (S0 : (0 <= b + d)%Q) by lra.
  assert (S1 : (b + d <= 81)%Q) by lra.
  pose proof (fl_bounded _ 81 S0 S1 finite_81) as E4.
  pose proof (round64_nonneg _ S0) as T0.
  pose proof (round64_mono _ 81 S1) as T1. rewrite round64_const_81 in T1.
  set (t1 := round64 (b + d)) in *.
  (* variety bonus *)
  assert (V0 : (0 <= inject_Z variety)%Q).
  { change 0%Q with (inject_Z 0). rewrite <- Zle_Qle. lia. }
  assert (V1 : (inject_Z variety <= inject_Z (3 * 2 ^ 63))%Q).
  { rewrite <- Zle_Qle. lia. }
  pose proof (fl_bounded _ _ V0 V1 finite_big) as E5.
  pose proof (round64_nonneg _ V0) as V0'.
  pose proof (round64_mono _ _ V1) as V1'. rewrite round64_const_big in V1'.
  set (v := round64 (inject_Z variety)) in *.
  assert (W0 : (0 <= t1 + v)%Q) by lra.
  assert (W1 : (t1 + v <= 81 + inject_Z (3 * 2 ^ 63))%Q) by lra.
  pose proof (fl_bounded _ _ W0 W1 finite_top) as E6.
  pose proof (round64_nonneg _ W0) as R0.
  exists (round64 (t1 + v)). split.
  - unfold access_value, Py.truediv, Py.fmul, Py.fadd_int, Py.float_of_int, Py.fadd.
    replace (n =? 0) with false by (symmetry; apply Z.eqb_neq; lia).
    fold q. rewrite E1. cbn [Py.bind]. fold a. rewrite E2. cbn [Py.bind].
    fold b. rewrite E3. cbn [Py.bind]. fold d. rewrite E4. cbn [Py.bind].
    fold t1. rewrite E5. cbn [Py.bind]. fold v. exact E6.
  - apply (trace_intro total n direct variety _ a b d t1 v);
      try reflexivity; try (split; assumption); assumption.
Qed.

(** Distance between the float and the exact value when the variety bonus
    is below 100: six roundings of at most [2^-46] each, and the distance of
    the literal [0.6] from 3/5. *)
Lemma trace_close (total n direct variety : Z) (t2 : Q) :
  trace total n direct variety t2 ->
  0 < n -> 0 <= total <= 100 * n -> 0 <= direct <= 20 ->
  0 <= variety < 100 ->
  let X := (inject_Z total / inject_Z n * (6 # 10)
            + inject_Z direct + inject_Z variety)%Q in
  (X - (6 # 70368744177664) <= t2)%Q /\ (t2 <= X + (6 # 70368744177664))%Q.
Proof.
  intros [a b d t1 v Ea Eb Ed Et1 Ev Et2 Ra Rb Rd Rt1 Rv Rt2] Hn Ht Hd Hv X.
  destruct lit_0_6_bounds as [C0 C1].
  pose proof (quotient_range total n Hn Ht) as [Q0 Q1].
  unfold X. clear X.
  set (q := (inject_Z total / inject_Z n)%Q) in *.
  set (dq := inject_Z direct) in *. set (vq := inject_Z variety) in *.
  assert (D0 : (0 <= dq)%Q).
  { unfold dq. change 0%Q with (inject_Z 0). rewrite <- Zle_Qle. lia. }
  assert (D1 : (dq <= 20)%Q).
  { unfold dq. change 20%Q with (inject_Z 20). rewrite <- Zle_Qle. lia. }
  assert (V0 : (0 <= vq)%Q).
  { unfold vq. change 0%Q with (inject_Z 0). rewrite <- Zle_Qle. lia. }
  assert (V1 : (vq <= 99)%Q).
  { unfold vq. change 99%Q with (inject_Z 99). rewrite <- Zle_Qle. lia. }
  assert (Hv' : (v <= 100)%Q).
  { rewrite Ev, <- round64_const_100. apply round64_mono. lra. }
  set (c := Py.lit_0_6) in *.
  assert (M0 : (0 <= a * c)%Q) by nra.
  assert (M1 : (a * c <= 61)%Q) by nra.
  assert (Ha : (q < 256)%Q) by lra.
  assert (Hm : (a * c < 256)%Q) by lra.
  assert (Hdq : (dq < 256)%Q) by lra.
  assert (Hs0 : (0 <= b + d)%Q) by lra.
  assert (Hs : (b + d < 256)%Q) by lra.
  assert (Hvq : (vq < 256)%Q) by lra.
  assert (Hw0 : (0 <= t1 + v)%Q) by lra.
  assert (Hw : (t1 + v < 256)%Q) by lra.
  pose proof (round64_error q Q0 Ha) as [A0 A1]. rewrite <- Ea in A0, A1.
  pose proof (round64_error _ M0 Hm) as [B0 B1]. rewrite <- Eb in B0, B1.
  pose proof (round64_error dq D0 Hdq) as [E0 E1]. rewrite <- Ed in E0, E1.
  pose proof (round64_error _ Hs0 Hs) as [T0 T1]. rewrite <- Et1 in T0, T1.
  pose proof (round64_error vq V0 Hvq) as [W0 W1]. rewrite <- Ev in W0, W1.
  pose proof (round64_error _ Hw0 Hw) as [U0 U1]. rewrite <- Et2 in U0, U1.
  assert (P0 : (q * (6 # 10) - (1 # 70368744177664) <= a * c)%Q) by nra.
  assert (P1 : (a * c <= q * (6 # 10) + (1 # 70368744177664))%Q) by nra.
  split; lra.
Qed.

(** The exact value is a multiple of [1/(5n)], so a float this close to it
    has the same floor or the floor below. *)
Lemma floor_bracket (total n direct variety : Z) (t2 : Q) :
  0 < n <= 2 ^ 40 ->
  let X := (inject_Z total / inject_Z n * (6 # 10)
            + inject_Z direct + inject_Z variety)%Q in
  (X - (6 # 70368744177664) <= t2)%Q -> (t2 <= X + (6 # 70368744177664))%Q ->
  Qfloor X - 1 <= Qfloor t2 <= Qfloor X.
Proof.
  intros [Hn Hn'] X Lo Hi.
  set (J := 3 * total + 5 * n * (direct + variety)).
  assert (N0 : (1 <= inject_Z n)%Q).
  { change 1%Q with (inject_Z 1). rewrite <- Zle_Qle. lia. }
  assert (N1 : (inject_Z n <= 1099511627776)%Q).
  { change 1099511627776%Q with (inject_Z (2 ^ 40)). rewrite <- Zle_Qle. lia. }
  assert (HJ : (inject_Z J == X * (5 * inject_Z n))%Q).
  { unfold J, X. rewrite !inject_Z_plus, !inject_Z_mult, !inject_Z_plus.
    change (inject_Z 3) with 3%Q. change (inject_Z 5) with 5%Q.
    field. lra. }
  clearbody X.
  pose proof (Qfloor_le X) as F0. pose proof (Qlt_floor X) as F1.
  rewrite inject_Z_plus in F1. change (inject_Z 1) with 1%Q in F1.
  set (F := Qfloor X) in *. clearbody F.
  split.
  - assert (H : (inject_Z (F - 1) <= t2)%Q).
    { unfold Z.sub. rewrite inject_Z_plus, inject_Z_opp.
      change (inject_Z 1) with 1%Q. lra. }
    apply Qfloor_resp_le in H. rewrite Qfloor_Z in H. exact H.
  - destruct (Z_lt_le_dec (Qfloor t2) (F + 1)) as [L | G]; [lia |].
    exfalso.
    pose proof (Qfloor_le t2) as G0.
    assert (G1 : (inject_Z (F + 1) <= t2)%Q).
    { eapply Qle_trans; [| exact G0]. rewrite <- Zle_Qle. exact G. }
    rewrite inject_Z_plus in G1. change (inject_Z 1) with 1%Q in G1.
    assert (U : (inject_Z J < inject_Z (5 * n * (F + 1)))%Q).
    { rewrite !inject_Z_mult, inject_Z_plus, HJ.
      change (inject_Z 5) with 5%Q. change (inject_Z 1) with 1%Q.
      nra. }
    assert (D : (inject_Z (5 * n * (F + 1) - 1) < inject_Z J)%Q).
    { unfold Z.sub.
      rewrite inject_Z_plus, inject_Z_opp, !inject_Z_mult, inject_Z_plus, HJ.
      change (inject_Z 5) with 5%Q. change (inject_Z 1) with 1%Q.
      nra. }
    rewrite <- Zlt_Qlt in U, D. lia.
Qed.

Lemma access_value_mono (s s' n direct variety : Z) (x y : Q) :
  0 < n -> s <= s' ->
  access_value s n direct variety = Some x ->
  access_value s' n direct variety = Some y ->
  (x <= y)%Q.
Proof.
  intros Hn Hs. unfold access_value, Py.truediv, Py.fmul, Py.fadd_int,
    Py.float_of_int, Py.fadd.
  replace (n =? 0) with false by (symmetry; apply Z.eqb_neq; lia).
  destruct (fl (inject_Z s / inject_Z n)) as [a |] eqn:A; [| discriminate].
  destruct (fl (inject_Z s' / inject_Z n)) as [a' |] eqn:A'; [| discriminate].
  cbn [Py.bind].
  destruct (fl (a * Py.lit_0_6)) as [b |] eqn:B; [| discriminate].
  destruct (fl (a' * Py.lit_0_6)) as [b' |] eqn:B'; [| discriminate].
  cbn [Py.bind].
  destruct (fl (inject_Z direct)) as [d |] eqn:D; [| discriminate].
  cbn [Py.bind].
  destruct (fl (b + d)) as [t |] eqn:T; [| discriminate].
  destruct (fl (b' + d)) as [t' |] eqn:T'; [| discriminate].
  cbn [Py.bind].
  destruct (fl (inject_Z variety)) as [v |] eqn:V; [| discriminate].
  cbn [Py.bind].
  intros X Y.
  assert (N : (0 < inject_Z n)%Q).
  { change 0%Q with (inject_Z 0). rewrite <- Zlt_Qlt. exact Hn. }
  assert (Hq : (inject_Z s / inject_Z n <= inject_Z s' / inject_Z n)%Q).
  { apply Qmult_le_compat_r.
    - rewrite <- Zle_Qle. exact Hs.
    - apply Qlt_le_weak, Qinv_lt_0_compat. exact N. }
  pose proof (fl_mono _ _ _ _ A A' Hq) as Ha.
  destruct lit_0_6_bounds as [C0 _].
  assert (Hm : (a * Py.lit_0_6 <= a' * Py.lit_0_6)%Q).
  { apply Qmult_le_compat_r; [exact Ha | lra]. }
  pose proof (fl_mono _ _ _ _ B B' Hm) as Hb.
  assert (Hsum : (b + d <= b' + d)%Q) by lra.
  pose proof (fl_mono _ _ _ _ T T' Hsum) as Ht.
  assert (Hlast : (t + v <= t' + v)%Q) by lra.
  exact (fl_mono _ _ _ _ X Y Hlast).
Qed.

Lemma clamp_range (z : Z) : 10 <= clamp z <= 99.
Proof. unfold clamp. lia. Qed.

Lemma clamp_mono (a b : Z) : a <= b -> clamp a <= clamp b.
Proof. unfold clamp. lia. Qed.

(** On a node set of the data model the function returns, and what it
    returns is the clamped floor of a non-negative float. *)
Lemma calculate_access_score_returns (nodes : list Node) :
  nodes <> [] ->
  Forall warm_in_range nodes ->
  Py.len nodes <= PY_SSIZE_T_MAX ->
  exists t2,
    access_value (Py.sum (map warm_score nodes)) (Py.len nodes)
                 (direct_bonus nodes) (variety_bonus nodes) = Some t2
    /\ trace (Py.sum (map warm_score nodes)) (Py.len nodes)
             (direct_bonus nodes) (variety_bonus nodes) t2
    /\ calculate_access_score nodes = Some (clamp (Qfloor t2)).
Proof.
  intros Hne Hw Hlen.
  assert (Hn : 0 < Py.len nodes).
  { destruct nodes; [congruence |]. rewrite len_cons.
    pose proof (len_nonneg nodes). lia. }
  pose proof (sum_in_range nodes Hw) as Hs.
  pose proof (direct_bonus_range nodes) as Hd.
  pose proof (variety_bonus_range nodes) as Hv.
  assert (Hv' : 0 <= variety_bonus nodes <= 3 * 2 ^ 63).
  { unfold PY_SSIZE_T_MAX in Hlen. lia. }
  destruct (access_value_trace _ _ _ _ Hn Hs Hd Hv') as [t2 [E T]].
  exists t2. split; [exact E |]. split; [exact T |].
  rewrite (calculate_access_score_unfold nodes Hne), E. cbn [Py.bind].
  unfold Py.int_of_float. rewrite Qtrunc_nonneg; [reflexivity |].
  destruct T; assumption.
Qed.

Lemma set_warm_score_length (i : nat) (w : Z) (nodes : list Node) :
  List.length (set_warm_score i w nodes) = List.length nodes.
Proof.
  revert i. induction nodes as [| n r IH]; intros [| j]; simpl; auto.
Qed.

Lemma set_warm_score_direct (i : nat) (w : Z) (nodes : list Node) :
  direct_bonus (set_warm_score i w nodes) = direct_bonus nodes.
Proof.
  unfold direct_bonus, Py.len. do 3 f_equal.
  revert i. induction nodes as [| n r IH]; intros [| j]; simpl; auto.
  - destruct (hop_distance n =? 1); reflexivity.
  - destruct (hop_distance n =? 1); simpl; rewrite IH; reflexivity.
Qed.

Lemma set_warm_score_types (i : nat) (w : Z) (nodes : list Node) :
  map relationship_type (set_warm_score i w nodes) = map relationship_type nodes.
Proof.
  revert i. induction nodes as [| n r IH]; intros [| j]; simpl; auto.
  rewrite IH. reflexivity.
Qed.

Lemma set_warm_score_variety (i : nat) (w : Z) (nodes : list Node) :
  variety_bonus (set_warm_score i w nodes) = variety_bonus nodes.
Proof. unfold variety_bonus. rewrite set_warm_score_types. reflexivity. Qed.

Lemma set_warm_score_sum (i : nat) (w : Z) (nodes : list Node) (n : Node) :
  nth_error nodes i = Some n ->
  Py.sum (map warm_score (set_warm_score i w nodes))
  = Py.sum (map warm_score nodes) + (w - warm_score n).
Proof.
  revert i. induction nodes as [| m r IH]; intros [| j] H; simpl in H;
    try discriminate.
  - injection H as ->. simpl. rewrite !sum_cons. simpl. lia.
  - simpl. rewrite !sum_cons, (IH j H). lia.
Qed.

Lemma set_warm_score_in_range (i : nat) (w : Z) (nodes : list Node) :
  0 <= w <= 100 ->
  Forall warm_in_range nodes ->
  Forall warm_in_range (set_warm_score i w nodes).
Proof.
  intros Hw H. revert i.
  induction H as [| n r Hn Hr IH]; intros [| j]; simpl; constructor; auto.
Qed.

End AccessScore.

(** C2, as stated, fails: three 2-hop managers with warm scores 20, 20 and 15
    have [avg_warm * 0.6 + 0 + 3 = 14] exactly, and the function returns 13,
    because [55 / 3 * 0.6] evaluates to a double just below 11. *)
Lemma access_score_differs_from_exact_formula :
  calculate_access_score three_lukewarm = Some 13
  /\ access_score_exact three_lukewarm = 14.
Proof. split; vm_compute; reflexivity. Qed.

(** C2, amended: on every node set of the data model (warm scores in
    [0,100], at most [PY_SSIZE_T_MAX] rows) [calculate_access_score] returns
    an integer in [10,99]; it is 30 on the empty set; on a non-empty set it is
    the clamped floor of the value of
    [avg_warm * 0.6 + direct_bonus + variety_bonus] computed in binary64
    floats, operation by operation, and (up to [2^40] rows) that is the
    clamped floor of the exact value or one less. *)
Theorem calculate_access_score_value (nodes : list Node) :
  Forall warm_in_range nodes ->
  Py.len nodes <= PY_SSIZE_T_MAX ->
  exists v,
    calculate_access_score nodes = Some v
    /\ 10 <= v <= 99
    /\ (nodes = [] -> v = 30)
    /\ (nodes <> [] ->
        exists x,
          access_value (Py.sum (map warm_score nodes)) (Py.len nodes)
                       (direct_bonus nodes) (variety_bonus nodes) = Some x
          /\ v = clamp (Qfloor x))
    /\ (nodes <> [] -> Py.len nodes <= 2 ^ 40 ->
        access_score_exact nodes - 1 <= v <= access_score_exact nodes).
Proof.
  intros Hw Hlen.
  destruct (list_eq_dec
              (fun a b : Node => ltac:(repeat decide equality)) nodes [])
    as [E | Hne].
  - subst. exists 30. repeat split; try lia; try congruence.
  - destruct (AccessScore.calculate_access_score_returns nodes Hne Hw Hlen)
      as [t2 [E [T R]]].
    exists (clamp (Qfloor t2)).
    split; [exact R |]. split; [apply AccessScore.clamp_range |].
    split; [congruence |]. split.
    + intros _. exists t2. split; [exact E | reflexivity].
    + intros _ Hsmall.
      assert (Hn : 0 < Py.len nodes).
      { destruct nodes; [congruence |]. rewrite AccessScore.len_cons.
        pose proof (AccessScore.len_nonneg nodes). lia. }
      pose proof (AccessScore.sum_in_range nodes Hw) as Hs.
      pose proof (AccessScore.direct_bonus_range nodes) as Hd.
      pose proof (AccessScore.variety_bonus_range nodes) as Hv.
      replace (access_score_exact nodes)
        with (clamp (Qfloor (exact_value nodes)))
        by (destruct nodes; [congruence | reflexivity]).
      destruct (Z_lt_le_dec (variety_bonus nodes) 100) as [Lt | Ge].
      * assert (Hv' : 0 <= variety_bonus nodes < 100) by lia.
        destruct (AccessScore.trace_close _ _ _ _ _ T Hn Hs Hd Hv') as [Lo Hi].
        pose proof (AccessScore.floor_bracket
                      (Py.sum (map warm_score nodes)) (Py.len nodes)
                      (direct_bonus nodes) (variety_bonus nodes) t2
                      (conj Hn Hsmall) Lo Hi) as B.
        fold (exact_value nodes) in B.
        unfold clamp. lia.
      * (* a variety bonus of 100 or more saturates both at 99 *)
        assert (Hx : 100 <= Qfloor (exact_value nodes)).
        { rewrite <- (Qfloor_Z 100). apply Qfloor_resp_le.
          pose proof (AccessScore.quotient_range _ _ Hn Hs) as [Q0 _].
          unfold exact_value.
          assert (D0 : (0 <= inject_Z (direct_bonus nodes))%Q).
          { change 0%Q with (inject_Z 0). rewrite <- Zle_Qle. lia. }
          assert (V0 : (inject_Z 100 <= inject_Z (variety_bonus nodes))%Q).
          { rewrite <- Zle_Qle. exact Ge. }
          set (q := (inject_Z (Py.sum (map warm_score nodes))
                     / inject_Z (Py.len nodes))%Q) in *.
          lra. }
        assert (Hf : 100 <= Qfloor t2).
        { rewrite <- (Qfloor_Z 100). apply Qfloor_resp_le.
          destruct T as [a b d t1 v Ea Eb Ed Et1 Ev Et2 Ra Rb Rd Rt1 Rv Rt2].
          assert (V1 : (100 <= v)%Q).
          { rewrite Ev, <- AccessScore.round64_const_100.
            apply Binary64Facts.round64_mono.
            change 100%Q with (inject_Z 100). rewrite <- Zle_Qle. exact Ge. }
          rewrite Et2.
          change (inject_Z 100) with 100%Q.
          rewrite <- AccessScore.round64_const_100.
          apply Binary64Facts.round64_mono. lra. }
        unfold clamp. lia.
Qed.

Lemma calculate_access_score_value_witness :
  exists v,
    calculate_access_score three_lukewarm = Some v
    /\ 10 <= v <= 99
    /\ (three_lukewarm = [] -> v = 30)
    /\ (three_lukewarm <> [] ->
        exists x,
          access_value (Py.sum (map warm_score three_lukewarm))
                       (Py.len three_lukewarm)
                       (direct_bonus three_lukewarm)
                       (variety_bonus three_lukewarm) = Some x
          /\ v = clamp (Qfloor x))
    /\ (three_lukewarm <> [] -> Py.len three_lukewarm <= 2 ^ 40 ->
        access_score_exact three_lukewarm - 1 <= v
        <= access_score_exact three_lukewarm).
Proof.
  apply (calculate_access_score_value three_lukewarm).
  - repeat constructor; unfold warm_in_range; simpl; lia.
  - vm_compute. discriminate.
Defined.

(** C3: raising the warm score of one row, everything else unchanged, never
    lowers the access score (both node sets within the data model). *)
Theorem calculate_access_score_monotone
  (nodes : list Node) (i : nat) (n : Node) (w : Z) :
  nth_error nodes i = Some n ->
  warm_score n <= w <= 100 ->
  Forall warm_in_range nodes ->
  Py.len nodes <= PY_SSIZE_T_MAX ->
  exists v v',
    calculate_access_score nodes = Some v
    /\ calculate_access_score (set_warm_score i w nodes) = Some v'
    /\ v <= v'.
Proof.
  intros Hi Hw Hr Hlen.
  assert (Hne : nodes <> []).
  { intros ->. destruct i; discriminate. }
  assert (Hn0 : 0 <= warm_score n).
  { rewrite Forall_forall in Hr. apply (Hr n). eapply nth_error_In; eauto. }
  set (nodes' := set_warm_score i w nodes).
  assert (Hne' : nodes' <> []).
  { intros E. apply (f_equal (@List.length Node)) in E. unfold nodes' in E.
    rewrite AccessScore.set_warm_score_length in E.
    destruct nodes; [congruence | discriminate]. }
  assert (Hr' : Forall warm_in_range nodes').
  { apply AccessScore.set_warm_score_in_range; [lia | exact Hr]. }
  assert (Hl : Py.len nodes' = Py.len nodes).
  { unfold Py.len, nodes'. rewrite AccessScore.set_warm_score_length.
    reflexivity. }
  assert (Hlen' : Py.len nodes' <= PY_SSIZE_T_MAX) by (rewrite Hl; exact Hlen).
  destruct (AccessScore.calculate_access_score_returns nodes Hne Hr Hlen)
    as [x [Ex [_ Rx]]].
  destruct (AccessScore.calculate_access_score_returns nodes' Hne' Hr' Hlen')
    as [y [Ey [_ Ry]]].
  exists (clamp (Qfloor x)), (clamp (Qfloor y)).
  split; [exact Rx |]. split; [exact Ry |].
  apply AccessScore.clamp_mono, Qfloor_resp_le.
  unfold nodes' in Ey, Hl.
  rewrite Hl, AccessScore.set_warm_score_direct,
    AccessScore.set_warm_score_variety,
    (AccessScore.set_warm_score_sum i w nodes n Hi) in Ey.
  assert (Hn : 0 < Py.len nodes).
  { destruct nodes; [congruence |]. rewrite AccessScore.len_cons.
    pose proof (AccessScore.len_nonneg nodes). lia. }
  refine (AccessScore.access_value_mono _ _ _ _ _ _ _ Hn _ Ex Ey). lia.
Qed.

Lemma calculate_access_score_monotone_witness :
  exists v v',
    calculate_access_score three_lukewarm = Some v
    /\ calculate_access_score (set_warm_score 2 90 three_lukewarm) = Some v'
    /\ v <= v'.
Proof.
  apply (calculate_access_score_monotone three_lukewarm 2
           cy 90).
  - reflexivity.
  - simpl. lia.
  - repeat constructor; unfold warm_in_range; simpl; lia.
  - vm_compute. discriminate.
Defined.

(** ** [list.sort] *)

Module SortFacts.

Section Generic.
Context {A K : Type}.
Variable key : A -> K.
Variable ltb : K -> K -> bool.

Lemma insert_perm (x : A) (l : list A) :
  Permutation (Py.insert key ltb x l) (x :: l).
Proof.
  induction l as [| y r IH]; simpl.
  - apply Permutation_refl.
  - destruct (ltb (key y) (key x)).
    + eapply perm_trans; [apply perm_skip, IH | apply perm_swap].
    + apply Permutation_refl.
Qed.

Lemma sort_perm (l : list A) : Permutation (Py.sort key ltb l) l.
Proof.
  induction l as [| x r IH]; simpl.
  - apply perm_nil.
  - eapply perm_trans; [apply insert_perm | apply perm_skip, IH].
Qed.

Lemma sort_length (l : list A) :
  List.length (Py.sort key ltb l) = List.length l.
Proof. apply Permutation_length, sort_perm. Qed.

Lemma sort_nonempty (l : list A) : l <> [] -> Py.sort key ltb l <> [].
Proof.
  intros H E. apply (f_equal (@List.length A)) in E.
  rewrite sort_length in E. destruct l; [congruence | discriminate].
Qed.

(** Stability: a class of rows that the order cannot tell apart keeps its
    input order. *)
Lemma insert_stable (P : A -> bool) (x : A) (l : list A) :
  (forall a b, P a = true -> P b = true -> ltb (key a) (key b) = false) ->
  filter P (Py.insert key ltb x l) = filter P (x :: l).
Proof.
  intros HP. induction l as [| y r IH]; [reflexivity |].
  simpl. destruct (ltb (key y) (key x)) eqn:E; [| reflexivity].
  simpl. simpl in IH. rewrite IH.
  destruct (P y) eqn:Py', (P x) eqn:Px; try reflexivity.
  rewrite (HP y x Py' Px) in E. discriminate.
Qed.

Lemma sort_stable (P : A -> bool) (l : list A) :
  (forall a b, P a = true -> P b = true -> ltb (key a) (key b) = false) ->
  filter P (Py.sort key ltb l) = filter P l.
Proof.
  intros HP. induction l as [| x r IH]; [reflexivity |].
  simpl Py.sort. rewrite (insert_stable P x _ HP).
  simpl. rewrite IH. reflexivity.
Qed.

Hypothesis ltb_asym : forall a b, ltb a b = true -> ltb b a = false.
Hypothesis before_trans :
  forall a b c, ltb b a = false -> ltb c b = false -> ltb c a = false.

Lemma insert_sorted (x : A) (l : list A) :
  StronglySorted (Py.before key ltb) l -> StronglySorted (Py.before key ltb) (Py.insert key ltb x l).
Proof.
  induction 1 as [| y r Hr IH Hy]; simpl.
  - constructor; constructor.
  - destruct (ltb (key y) (key x)) eqn:E.
    + constructor; [exact IH |].
      apply (Permutation_Forall (Permutation_sym (insert_perm x r))).
      constructor; [| exact Hy].
      unfold Py.before. apply ltb_asym. exact E.
    + constructor; [constructor; assumption |].
      constructor; [exact E |].
      rewrite Forall_forall in Hy |- *. intros z Hz.
      unfold Py.before in *. apply (before_trans _ (key y)); auto.
Qed.

Lemma sort_sorted (l : list A) : StronglySorted (Py.before key ltb) (Py.sort key ltb l).
Proof.
  induction l as [| x r IH]; simpl.
  - constructor.
  - apply insert_sorted, IH.
Qed.
Lemma tied_refl (x : A) : Py.tied key ltb x x = true.
Proof.
  unfold Py.tied. destruct (ltb (key x) (key x)) eqn:E; [| reflexivity].
  rewrite (ltb_asym _ _ E) in E. discriminate.
Qed.

Lemma sort_is_stable_sort (l : list A) :
  Py.stable_sort_of key ltb l (Py.sort key ltb l).
Proof.
  split; [apply sort_perm |]. split; [apply sort_sorted |].
  intros c. apply sort_stable. intros a b Ha Hb.
  unfold Py.tied in Ha, Hb.
  apply andb_true_iff in Ha, Hb. destruct Ha as [Ha _], Hb as [_ Hb].
  apply negb_true_iff in Ha, Hb.
  exact (before_trans _ _ _ Hb Ha).
Qed.

(** Two sorted lists with the same rows and the same order inside every
    class of tied rows are the same list. *)
Lemma sorted_stable_unique (l1 l2 : list A) :
  Permutation l1 l2 ->
  StronglySorted (Py.before key ltb) l1 ->
  StronglySorted (Py.before key ltb) l2 ->
  (forall c, filter (Py.tied key ltb c) l1 = filter (Py.tied key ltb c) l2) ->
  l1 = l2.
Proof.
  revert l2. induction l1 as [| x t1 IH]; intros l2 P S1 S2 F.
  - apply Permutation_nil in P. congruence.
  - destruct l2 as [| y t2].
    { apply Permutation_sym, Permutation_nil in P. discriminate. }
    apply StronglySorted_inv in S1. destruct S1 as [S1 H1].
    apply StronglySorted_inv in S2. destruct S2 as [S2 H2].
    rewrite Forall_forall in H1, H2.
    assert (Bxy : ltb (key y) (key x) = false).
    { assert (I : In y (x :: t1)).
      { apply (Permutation_in y (Permutation_sym P)). left. reflexivity. }
      destruct I as [-> | I]; [| exact (H1 y I)].
      pose proof (tied_refl y) as T. unfold Py.tied in T.
      apply andb_true_iff in T. destruct T as [T _].
      apply negb_true_iff in T. exact T. }
    assert (Byx : ltb (key x) (key y) = false).
    { assert (I : In x (y :: t2)).
      { apply (Permutation_in x P). left. reflexivity. }
      destruct I as [-> | I]; [| exact (H2 x I)].
      exact Bxy. }
    assert (E : x = y).
    { pose proof (F x) as Fx. simpl in Fx. rewrite tied_refl in Fx.
      unfold Py.tied in Fx at 2. rewrite Bxy, Byx in Fx. simpl in Fx.
      congruence. }
    subst y. f_equal. apply IH.
    + exact (Permutation_cons_inv P).
    + exact S1.
    + exact S2.
    + intros c. pose proof (F c) as Fc. simpl in Fc.
      destruct (Py.tied key ltb c x); congruence.
Qed.

Lemma stable_sort_unique (l sorted : list A) :
  Py.stable_sort_of key ltb l sorted -> sorted = Py.sort key ltb l.
Proof.
  intros [P [S F]].
  destruct (sort_is_stable_sort l) as [P' [S' F']].
  apply sorted_stable_unique; auto.
  - eapply perm_trans; [exact P | apply Permutation_sym, P'].
  - intros c. rewrite F, F'. reflexivity.
Qed.
End Generic.

(** Two keys that order the rows of a list alike sort it alike. *)
Section TwoKeys.
Context {A K1 K2 : Type}.
Variable key1 : A -> K1.
Variable ltb1 : K1 -> K1 -> bool.
Variable key2 : A -> K2.
Variable ltb2 : K2 -> K2 -> bool.

Lemma insert_ext (x : A) (l : list A) :
  (forall y, In y l -> ltb1 (key1 y) (key1 x) = ltb2 (key2 y) (key2 x)) ->
  Py.insert key1 ltb1 x l = Py.insert key2 ltb2 x l.
Proof.
  induction l as [| y r IH]; intros H; [reflexivity |].
  simpl. rewrite (H y (or_introl eq_refl)).
  destruct (ltb2 (key2 y) (key2 x)); [| reflexivity].
  f_equal. apply IH. intros z Hz. apply H. right. exact Hz.
Qed.

Lemma sort_ext (l : list A) :
  (forall x y, In x l -> In y l ->
               ltb1 (key1 y) (key1 x) = ltb2 (key2 y) (key2 x)) ->
  Py.sort key1 ltb1 l = Py.sort key2 ltb2 l.
Proof.
  induction l as [| x r IH]; intros H; [reflexivity |].
  simpl. rewrite IH.
  - apply insert_ext. intros y Hy. apply H; [left; reflexivity |].
    right. apply (Permutation_in _ (sort_perm key2 ltb2 r)). exact Hy.
  - intros a b Ha Hb. apply H; right; assumption.
Qed.
End TwoKeys.

End SortFacts.

(** ** The path finder *)

Module PathFacts.
Import Binary64 Binary64Facts.

Lemma score_nodes_node {L : Py.Lower} (ctx : option UserContext)
  (nodes : list Node) :
  map node (score_nodes ctx nodes) = nodes.
Proof.
  unfold score_nodes. rewrite map_map. simpl. apply map_id.
Qed.

Lemma score_nodes_in {L : Py.Lower} (ctx : option UserContext)
  (nodes : list Node) (x : ScoredNode) :
  In x (score_nodes ctx nodes) -> In (node x) nodes.
Proof.
  unfold score_nodes. rewrite in_map_iff. intros [n [<- Hn]]. exact Hn.
Qed.

Lemma rank_perm (l : list ScoredNode) : Permutation (rank l) l.
Proof. apply SortFacts.sort_perm. Qed.

Lemma rank_in {L : Py.Lower} (ctx : option UserContext) (nodes : list Node)
  (x : ScoredNode) :
  In x (rank (score_nodes ctx nodes)) -> In (node x) nodes.
Proof.
  intros H. apply (score_nodes_in ctx).
  apply (Permutation_in _ (rank_perm _)). exact H.
Qed.

Lemma rank_nonempty {L : Py.Lower} (ctx : option UserContext)
  (nodes : list Node) :
  nodes <> [] -> rank (score_nodes ctx nodes) <> [].
Proof.
  intros H. apply SortFacts.sort_nonempty.
  destruct nodes; [congruence | discriminate].
Qed.

Lemma tuple_ltb_asym (a b : bool * Z) :
  Py.tuple_ltb a b = true -> Py.tuple_ltb b a = false.
Proof.
  destruct a as [[|] x], b as [[|] y]; unfold Py.tuple_ltb; simpl;
    try discriminate; try reflexivity.
  - intros H. apply Z.ltb_lt in H. apply Z.ltb_ge. lia.
  - intros H. apply Z.ltb_lt in H. apply Z.ltb_ge. lia.
Qed.

Lemma tuple_before_trans (a b c : bool * Z) :
  Py.tuple_ltb b a = false -> Py.tuple_ltb c b = false ->
  Py.tuple_ltb c a = false.
Proof.
  destruct a as [[|] x], b as [[|] y], c as [[|] z]; unfold Py.tuple_ltb;
    simpl; try discriminate; try reflexivity.
  - intros H1 H2. apply Z.ltb_ge in H1, H2. apply Z.ltb_ge. lia.
  - intros H1 H2. apply Z.ltb_ge in H1, H2. apply Z.ltb_ge. lia.
Qed.

(** The ranking is the only stable sort of the scored rows. *)
Lemma rank_unique (scored ranked : list ScoredNode) :
  Py.stable_sort_of sort_key Py.tuple_ltb scored ranked ->
  ranked = rank scored.
Proof.
  apply SortFacts.stable_sort_unique.
  - exact tuple_ltb_asym.
  - exact tuple_before_trans.
Qed.

Lemma sorted_weaken {A : Type} (R R' : A -> A -> Prop) (l : list A) :
  (forall a b, R a b -> R' a b) -> StronglySorted R l -> StronglySorted R' l.
Proof.
  intros H. induction 1 as [| x r Hr IH Hx]; constructor; auto.
  rewrite Forall_forall in Hx |- *. auto.
Qed.

Lemma context_score_fold {L : Py.Lower} (text : string) (conns : list string)
  (z : Z) :
  fold_left (fun score conn => if Py.str_in conn text then score + 10 else score)
            (map Py.lower conns) z
  = z + 10 * Py.len (filter (fun conn => Py.str_in (Py.lower conn) text) conns).
Proof.
  revert z. induction conns as [| c r IH]; intros z; cbn [fold_left map filter].
  - unfold Py.len. simpl. lia.
  - rewrite IH. destruct (Py.str_in (Py.lower c) text).
    + rewrite AccessScore.len_cons. lia.
    + lia.
Qed.

Lemma finite_200 : (round64 200 <= max_float)%Q.
Proof. vm_compute. discriminate. Qed.

Lemma truediv_returns (s n : Z) :
  0 < n -> 0 <= s <= 200 -> exists q, Py.truediv s n = Some q.
Proof.
  intros Hn [H0 H1]. unfold Py.truediv.
  replace (n =? 0) with false by (symmetry; apply Z.eqb_neq; lia).
  assert (N : (1 <= inject_Z n)%Q).
  { change 1%Q with (inject_Z 1). rewrite <- Zle_Qle. lia. }
  assert (S0 : (0 <= inject_Z s)%Q).
  { change 0%Q with (inject_Z 0). rewrite <- Zle_Qle. exact H0. }
  assert (S1 : (inject_Z s <= 200)%Q).
  { change 200%Q with (inject_Z 200). rewrite <- Zle_Qle. exact H1. }
  eexists. apply (fl_bounded _ 200).
  - apply Qle_shift_div_l; lra.
  - apply Qle_shift_div_r; [lra | nra].
  - exact finite_200.
Qed.

(** The path is the entry node alone, or the entry node and then the first
    direct node of the ranking. *)
Lemma build_path_cases (ranked : list ScoredNode) (top : ScoredNode) :
  (1 < hop_distance (node top)
   /\ exists bridge rest,
        filter (fun n => hop_distance (node n) =? 1) ranked = bridge :: rest
        /\ build_path ranked top = [path_entry top; path_entry bridge])
  \/ ((hop_distance (node top) <= 1
       \/ filter (fun n => hop_distance (node n) =? 1) ranked = [])
      /\ build_path ranked top = [path_entry top]).
Proof.
  unfold build_path.
  destruct (Z.ltb_spec 1 (hop_distance (node top))) as [L | G].
  - destruct (filter _ ranked) as [| bridge rest] eqn:E.
    + right. split; [right; reflexivity | reflexivity].
    + left. split; [exact L |]. exists bridge, rest. split; reflexivity.
  - right. split; [left; exact G | reflexivity].
Qed.

Lemma recommend_returns (ranked rest : list ScoredNode) (top : ScoredNode) :
  ranked = top :: rest ->
  Forall (fun x => warm_in_range (node x)) ranked ->
  exists r,
    recommend ranked = Some r
    /\ path r = build_path ranked top
    /\ entry_point r = Some (path_entry top)
    /\ all_nodes r = Some (map node_summary (firstn 8 ranked)).
Proof.
  intros E Hr.
  assert (Htop : warm_in_range (node top)).
  { rewrite Forall_forall in Hr. apply Hr. rewrite E. left. reflexivity. }
  assert (Hsum : exists q,
             Py.truediv (Py.sum (map pe_warm_score (build_path ranked top)))
                        (Py.len (build_path ranked top)) = Some q).
  { destruct (build_path_cases ranked top)
      as [[_ [bridge [tl [F ->]]]] | [_ ->]].
    - assert (Hb : warm_in_range (node bridge)).
      { rewrite Forall_forall in Hr. apply Hr.
        assert (I : In bridge (bridge :: tl)) by (left; reflexivity).
        rewrite <- F in I. apply filter_In in I. apply I. }
      apply truediv_returns; [reflexivity |].
      unfold warm_in_range in *. simpl map.
      rewrite !AccessScore.sum_cons. unfold Py.sum. simpl. lia.
    - apply truediv_returns; [reflexivity |].
      unfold warm_in_range in *. simpl map.
      rewrite !AccessScore.sum_cons. unfold Py.sum. simpl. lia. }
  destruct Hsum as [q Hq].
  assert (Hmax : exists m, Py.max (map pe_hop (build_path ranked top)) = Some m).
  { destruct (build_path_cases ranked top)
      as [[_ [bridge [tl [_ ->]]]] | [_ ->]]; eexists; reflexivity. }
  destruct Hmax as [m Hm].
  unfold recommend. rewrite E. rewrite <- E.
  rewrite Hm. cbn [Py.bind]. rewrite Hq. cbn [Py.bind].
  eexists. split; [reflexivity |]. cbn [path entry_point all_nodes].
  split; [reflexivity |]. split; [| reflexivity].
  destruct (build_path_cases ranked top)
    as [[_ [bridge [tl [_ ->]]]] | [_ ->]]; reflexivity.
Qed.

Lemma ranked_in_range {L : Py.Lower} (ctx : option UserContext)
  (nodes : list Node) :
  Forall warm_in_range nodes ->
  Forall (fun x => warm_in_range (node x)) (rank (score_nodes ctx nodes)).
Proof.
  intros H. rewrite Forall_forall in H |- *. intros x Hx.
  apply H. apply (rank_in ctx). exact Hx.
Qed.

Lemma find_best_path_nonempty {L : Py.Lower} (nodes : list Node)
  (ctx : option UserContext) :
  nodes <> [] ->
  find_best_path nodes ctx = recommend (rank (score_nodes ctx nodes)).
Proof. destruct nodes; [congruence | reflexivity]. Qed.

Lemma rank_is_stable_sort (scored : list ScoredNode) :
  Py.stable_sort_of sort_key Py.tuple_ltb scored (rank scored).
Proof.
  apply SortFacts.sort_is_stable_sort.
  - exact tuple_ltb_asym.
  - exact tuple_before_trans.
Qed.

(** The embedding of [find_best_path] is one of its runs. *)
Lemma find_best_path_runs {L : Py.Lower} (nodes : list Node)
  (ctx : option UserContext) :
  find_best_path_run nodes ctx (find_best_path nodes ctx).
Proof.
  destruct nodes as [| n rest] eqn:E.
  - apply run_no_nodes. reflexivity.
  - rewrite find_best_path_nonempty by discriminate.
    apply run_sorted; [discriminate | apply rank_is_stable_sort].
Qed.

(** Every run ends as the embedding does. *)
Lemma run_is_find_best_path {L : Py.Lower} (nodes : list Node)
  (ctx : option UserContext) (outcome : option PathResult) :
  find_best_path_run nodes ctx outcome -> outcome = find_best_path nodes ctx.
Proof.
  intros [E | ranked Hne H].
  - rewrite E. reflexivity.
  - rewrite (rank_unique _ _ H). symmetry.
    apply find_best_path_nonempty. exact Hne.
Qed.

Lemma path_entry_describes (x : ScoredNode) : describes (path_entry x) (node x).
Proof. repeat split. Qed.

End PathFacts.

(** C1 at the node set [warm_but_far; cool_but_near]: a direct node exists,
    and the returned path has two elements and starts at the 2-hop node.  The
    first component of the sort key is [False] for both rows, so the warmer
    2-hop row ranks first. *)
Theorem direct_node_not_preferred :
  exists r,
    find_best_path [warm_but_far; cool_but_near] None = Some r
    /\ map pe_hop (path r) = [2; 1]
    /\ option_map pe_hop (entry_point r) = Some 2
    /\ map sort_key (score_nodes None [warm_but_far; cool_but_near])
       = [(false, -80); (false, -60)]
    /\ map (fun x => hop_distance (node x))
           (rank (score_nodes None [warm_but_far; cool_but_near])) = [2; 1].
Proof.
  eexists. split; [vm_compute; reflexivity |].
  repeat split; reflexivity.
Qed.

(** C4, as stated, fails twice.  The code joins the three fields with single
    spaces, so "film producer" matches role "Film" followed by a rationale
    that starts with "producer", which the plain concatenation
    "filmproducer ..." does not contain; and an empty industry earns no
    boost although the empty string occurs in every text. *)
Lemma context_score_differs_from_concatenation :
  context_score (Some film_context) film_person = 65
  /\ context_score_on_concatenation (Some film_context) film_person = 50
  /\ context_score (Some blank_industry_context) film_person = 50
  /\ context_score_on_concatenation (Some blank_industry_context) film_person
     = 65.
Proof. repeat split; vm_compute; reflexivity. Qed.

(** C4, amended: [final_score] starts at [warm_score]; with a context (a
    dict that is not empty) it grows by exactly 15 when [context.industry],
    case folded, is non-empty and occurs in the case-folded text
    [role + " " + why_warm + " " + relationship_type] (a null field counting
    as empty), and by exactly 10 for each entry of [context.connections]
    that, case folded, occurs in that text; without a context it is
    [warm_score].  This holds for every case folding [L], so for
    [str.lower()] on all text. *)
Theorem final_score_is_warm_score_plus_boosts
  (L : Py.Lower) (user_context : option UserContext) (nodes : list Node) :
  map node (score_nodes user_context nodes) = nodes
  /\ map final_score (score_nodes user_context nodes)
     = map (fun n =>
              match user_context with
              | None => warm_score n
              | Some c =>
                if context_truthy c then
                  let text :=
                    Py.lower (Py.or_empty (role n) ++ " "
                              ++ Py.or_empty (why_warm n) ++ " "
                              ++ Py.or_empty (relationship_type n))%string in
                  let industry := Py.lower (Py.or_empty (ctx_industry c)) in
                  let connections :=
                    match ctx_connections c with Some l => l | None => [] end in
                  warm_score n
                  + (if Py.str_truthy industry && Py.str_in industry text
                     then 15 else 0)
                  + 10 * Py.len (filter (fun conn =>
                                           Py.str_in (Py.lower conn) text)
                                        connections)
                else warm_score n
              end) nodes.
Proof.
  unfold score_nodes. split.
  - rewrite map_map. cbn [node]. apply map_id.
  - rewrite map_map. apply map_ext. intros n.
    cbn [final_score]. unfold context_score, node_text.
    destruct user_context as [c |]; [| reflexivity].
    destruct (context_truthy c); [| reflexivity].
    cbv zeta. rewrite PathFacts.context_score_fold.
    destruct (Py.str_truthy _ && Py.str_in _ _); lia.
Qed.

(** C6: on the empty node set each function returns its steady state. *)
Theorem empty_node_set_defaults {L : Py.Lower}
  (user_context : option UserContext) (celebrity_name : string) :
  calculate_access_score [] = Some 30
  /\ find_best_path [] user_context = Some (mkResult [] 0 0 None None)
  /\ get_graph_data [] celebrity_name
     = mkGraph [target_visual celebrity_name] [].
Proof. repeat split; reflexivity. Qed.

(** C7: two runs of [find_best_path] on the same rows in the same order and
    the same context end alike, whatever [list.sort] does within its
    contract in either run: both raise, or both return, and then the two
    records agree in [path], [total_hops], [path_score], [entry_point] and
    [all_nodes].  The outcome is the one the embedding computes. *)
Theorem find_best_path_deterministic {L : Py.Lower}
  (nodes : list Node) (ctx : option UserContext)
  (first second : option PathResult) :
  find_best_path_run nodes ctx first ->
  find_best_path_run nodes ctx second ->
  first = second
  /\ first = find_best_path nodes ctx
  /\ (forall r1 r2, first = Some r1 -> second = Some r2 ->
        path r1 = path r2
        /\ total_hops r1 = total_hops r2
        /\ path_score r1 = path_score r2
        /\ entry_point r1 = entry_point r2
        /\ all_nodes r1 = all_nodes r2).
Proof.
  intros H1 H2.
  apply PathFacts.run_is_find_best_path in H1, H2.
  split; [congruence |]. split; [exact H1 |].
  intros r1 r2 E1 E2.
  assert (E : r1 = r2) by congruence.
  rewrite E. repeat split.
Qed.

Lemma find_best_path_deterministic_witness :
  recommend (rank (score_nodes (Some film_context)
                               [cool_but_near; film_person; warm_but_far]))
  = recommend [mkScored warm_but_far 80; mkScored film_person 65;
               mkScored cool_but_near 60]
  /\ recommend (rank (score_nodes (Some film_context)
                                  [cool_but_near; film_person; warm_but_far]))
     = find_best_path [cool_but_near; film_person; warm_but_far]
                      (Some film_context)
  /\ (forall r1 r2,
        recommend (rank (score_nodes (Some film_context)
                                     [cool_but_near; film_person; warm_but_far]))
        = Some r1 ->
        recommend [mkScored warm_but_far 80; mkScored film_person 65;
                   mkScored cool_but_near 60] = Some r2 ->
        path r1 = path r2
        /\ total_hops r1 = total_hops r2
        /\ path_score r1 = path_score r2
        /\ entry_point r1 = entry_point r2
        /\ all_nodes r1 = all_nodes r2).
Proof.
  apply (find_best_path_deterministic
           [cool_but_near; film_person; warm_but_far] (Some film_context)).
  - apply run_sorted; [discriminate | apply PathFacts.rank_is_stable_sort].
  - apply run_sorted; [discriminate |].
    change [mkScored warm_but_far 80; mkScored film_person 65;
            mkScored cool_but_near 60]
      with (rank (score_nodes (Some film_context)
                              [cool_but_near; film_person; warm_but_far])).
    apply PathFacts.rank_is_stable_sort.
Defined.

(** C9: when every hop distance is at least 1, the first component of the
    sort key is [False] on every row, and the ranking used for the entry
    node and for [all_nodes] is the stable sort on descending [final_score]:
    a permutation of the scored rows, in descending score order, in which
    rows of equal score keep their input order. *)
Theorem ranking_ignores_hop_distance {L : Py.Lower}
  (nodes : list Node) (ctx : option UserContext) :
  Forall hop_positive nodes ->
  let scored := score_nodes ctx nodes in
  Forall (fun x => fst (sort_key x) = false) scored
  /\ rank scored = sort_by_final_score_desc scored
  /\ Permutation (rank scored) scored
  /\ StronglySorted (fun a b => final_score b <= final_score a) (rank scored)
  /\ (forall s, filter (fun x => final_score x =? s) (rank scored)
                = filter (fun x => final_score x =? s) scored)
  /\ (nodes <> [] ->
      find_best_path nodes ctx = recommend (sort_by_final_score_desc scored)).
Proof.
  intros Hhop scored.
  assert (Hkey : Forall (fun x => fst (sort_key x) = false) scored).
  { rewrite Forall_forall in Hhop |- *. intros x Hx.
    apply PathFacts.score_nodes_in in Hx. specialize (Hhop _ Hx).
    unfold hop_positive in Hhop. unfold sort_key. cbn [fst].
    apply Z.eqb_neq. lia. }
  assert (Heq : rank scored = sort_by_final_score_desc scored).
  { unfold rank, sort_by_final_score_desc. apply SortFacts.sort_ext.
    rewrite Forall_forall in Hkey. intros x y Hx Hy.
    pose proof (Hkey x Hx) as Kx. pose proof (Hkey y Hy) as Ky.
    unfold Py.tuple_ltb. rewrite Kx, Ky. reflexivity. }
  split; [exact Hkey |]. split; [exact Heq |].
  split; [apply PathFacts.rank_perm |]. split.
  - rewrite Heq. unfold sort_by_final_score_desc.
    eapply PathFacts.sorted_weaken;
      [| apply (SortFacts.sort_sorted (fun x => - final_score x) Z.ltb)].
    + intros a b H. unfold Py.before in H. apply Z.ltb_ge in H. lia.
    + intros a b H. apply Z.ltb_lt in H. apply Z.ltb_ge. lia.
    + intros a b c H1 H2. apply Z.ltb_ge in H1, H2. apply Z.ltb_ge. lia.
  - split.
    + intros s. rewrite Heq. unfold sort_by_final_score_desc.
      apply SortFacts.sort_stable. intros a b Ha Hb.
      apply Z.eqb_eq in Ha, Hb. apply Z.ltb_ge. lia.
    + intros Hne. rewrite <- Heq.
      apply PathFacts.find_best_path_nonempty. exact Hne.
Qed.

Lemma ranking_ignores_hop_distance_witness :
  let scored := score_nodes None [cool_but_near; warm_but_far] in
  Forall (fun x => fst (sort_key x) = false) scored
  /\ rank scored = sort_by_final_score_desc scored
  /\ Permutation (rank scored) scored
  /\ StronglySorted (fun a b => final_score b <= final_score a) (rank scored)
  /\ (forall s, filter (fun x => final_score x =? s) (rank scored)
                = filter (fun x => final_score x =? s) scored)
  /\ ([cool_but_near; warm_but_far] <> [] ->
      find_best_path [cool_but_near; warm_but_far] None
      = recommend (sort_by_final_score_desc scored)).
Proof.
  apply (ranking_ignores_hop_distance [cool_but_near; warm_but_far] None).
  repeat constructor; unfold hop_positive; simpl; lia.
Defined.

(** C10: the returned path has one or two elements.  It has two exactly when
    the top-ranked row has a hop distance above 1 and some row has hop
    distance 1: first the entry, which carries every field of the top-ranked
    row and so a hop above 1, then the bridge, which carries every field of
    the highest-ranked direct row and so hop 1.  The entry point is the first
    element and describes the top-ranked row in every case. *)
Theorem path_is_entry_then_bridge {L : Py.Lower}
  (nodes : list Node) (ctx : option UserContext) :
  nodes <> [] ->
  Forall warm_in_range nodes ->
  exists top rest r,
    rank (score_nodes ctx nodes) = top :: rest
    /\ In (node top) nodes
    /\ find_best_path nodes ctx = Some r
    /\ entry_point r = Some (path_entry top)
    /\ hd_error (path r) = Some (path_entry top)
    /\ (exists entry,
          entry_point r = Some entry
          /\ hd_error (path r) = Some entry
          /\ describes entry (node top))
    /\ (1 < hop_distance (node top) ->
        (exists n, In n nodes /\ hop_distance n = 1) ->
        exists bridge others,
          filter (fun x => hop_distance (node x) =? 1)
                 (rank (score_nodes ctx nodes)) = bridge :: others
          /\ hop_distance (node bridge) = 1
          /\ In (node bridge) nodes
          /\ path r = [path_entry top; path_entry bridge]
          /\ exists entry second,
               path r = [entry; second]
               /\ entry_point r = Some entry
               /\ describes entry (node top)
               /\ 1 < pe_hop entry
               /\ describes second (node bridge)
               /\ pe_hop second = 1)
    /\ (~ (1 < hop_distance (node top)
           /\ exists n, In n nodes /\ hop_distance n = 1) ->
        path r = [path_entry top])
    /\ (List.length (path r) = 1 \/ List.length (path r) = 2)%nat.
Proof.
  intros Hne Hw.
  set (ranked := rank (score_nodes ctx nodes)).
  destruct ranked as [| top rest] eqn:E.
  { exfalso. exact (PathFacts.rank_nonempty ctx nodes Hne E). }
  destruct (PathFacts.recommend_returns ranked rest top E
              (PathFacts.ranked_in_range ctx nodes Hw))
    as [r [R [P [EP _]]]].
  exists top, rest, r.
  split; [reflexivity |].
  assert (Itop : In (node top) nodes).
  { apply (PathFacts.rank_in ctx). fold ranked. rewrite E. left. reflexivity. }
  split; [exact Itop |].
  split; [rewrite (PathFacts.find_best_path_nonempty nodes ctx Hne); exact R |].
  split; [exact EP |].
  assert (Hdirect : (exists n, In n nodes /\ hop_distance n = 1) <->
                    filter (fun x => hop_distance (node x) =? 1) ranked <> []).
  { split.
    - intros [n [Hn H1]] F.
      assert (I : In n (map node ranked)).
      { apply (Permutation_in n
                 (Permutation_map node
                    (Permutation_sym (PathFacts.rank_perm _)))).
        rewrite PathFacts.score_nodes_node. exact Hn. }
      apply in_map_iff in I. destruct I as [x [Hx Ix]].
      assert (In x (filter (fun x => hop_distance (node x) =? 1) ranked)).
      { apply filter_In. split; [exact Ix |]. rewrite Hx. apply Z.eqb_eq, H1. }
      rewrite F in H. destruct H.
    - intros F.
      destruct (filter (fun x => hop_distance (node x) =? 1) ranked)
        as [| b tl] eqn:Fb; [congruence |].
      assert (I : In b (b :: tl)) by (left; reflexivity).
      rewrite <- Fb in I. apply filter_In in I. destruct I as [Ib Hb].
      exists (node b). split.
      + apply (PathFacts.rank_in ctx). exact Ib.
      + apply Z.eqb_eq, Hb. }
  assert (Hhead : hd_error (path r) = Some (path_entry top)).
  { rewrite P.
    destruct (PathFacts.build_path_cases ranked top)
      as [[_ [bridge [tl [_ ->]]]] | [_ ->]]; reflexivity. }
  split; [exact Hhead |].
  split.
  { exists (path_entry top).
    split; [exact EP |]. split; [exact Hhead |].
    apply PathFacts.path_entry_describes. }
  rewrite P. rewrite <- E.
  destruct (PathFacts.build_path_cases ranked top)
    as [[Hfar [bridge [tl [F B]]]] | [C B]]; rewrite B.
  - split; [| split; [| right; reflexivity]].
    + intros _ _. exists bridge, tl.
      assert (I : In bridge (bridge :: tl)) by (left; reflexivity).
      rewrite <- F in I. apply filter_In in I. destruct I as [Ib Hb].
      apply Z.eqb_eq in Hb.
      split; [exact F |]. split; [exact Hb |].
      split; [apply (PathFacts.rank_in ctx); exact Ib |].
      split; [reflexivity |].
      exists (path_entry top), (path_entry bridge).
      split; [reflexivity |]. split; [exact EP |].
      split; [apply PathFacts.path_entry_describes |].
      split; [exact Hfar |].
      split; [apply PathFacts.path_entry_describes | exact Hb].
    + intros N. exfalso. apply N. split; [exact Hfar |].
      apply Hdirect. rewrite F. discriminate.
  - split; [| split; [| left; reflexivity]].
    + intros Hfar D. exfalso. destruct C as [C | C]; [lia |].
      apply Hdirect in D. exact (D C).
    + intros _. reflexivity.
Qed.

Lemma path_is_entry_then_bridge_witness :
  exists top rest r,
    rank (score_nodes None [warm_but_far; cool_but_near]) = top :: rest
    /\ In (node top) [warm_but_far; cool_but_near]
    /\ find_best_path [warm_but_far; cool_but_near] None = Some r
    /\ entry_point r = Some (path_entry top)
    /\ hd_error (path r) = Some (path_entry top)
    /\ (exists entry,
          entry_point r = Some entry
          /\ hd_error (path r) = Some entry
          /\ describes entry (node top))
    /\ (1 < hop_distance (node top) ->
        (exists n, In n [warm_but_far; cool_but_near] /\ hop_distance n = 1) ->
        exists bridge others,
          filter (fun x => hop_distance (node x) =? 1)
                 (rank (score_nodes None [warm_but_far; cool_but_near])) = bridge :: others
          /\ hop_distance (node bridge) = 1
          /\ In (node bridge) [warm_but_far; cool_but_near]
          /\ path r = [path_entry top; path_entry bridge]
          /\ exists entry second,
               path r = [entry; second]
               /\ entry_point r = Some entry
               /\ describes entry (node top)
               /\ 1 < pe_hop entry
               /\ describes second (node bridge)
               /\ pe_hop second = 1)
    /\ (~ (1 < hop_distance (node top)
           /\ exists n, In n [warm_but_far; cool_but_near] /\ hop_distance n = 1) ->
        path r = [path_entry top])
    /\ (List.length (path r) = 1 \/ List.length (path r) = 2)%nat.
Proof.
  apply (path_is_entry_then_bridge [warm_but_far; cool_but_near] None).
  - discriminate.
  - repeat constructor; unfold warm_in_range; simpl; lia.
Defined.

(** ** The graph projection *)

Module GraphFacts.

Lemma graph_loop (nodes : list Node) (g : GraphData) :
  fold_left graph_step nodes g
  = mkGraph (vis_nodes g ++ map person_visual nodes)
            (vis_edges g ++ map person_edge nodes).
Proof.
  revert g. induction nodes as [| n r IH]; intros g.
  - simpl. rewrite !app_nil_r. destruct g; reflexivity.
  - simpl fold_left. rewrite IH. unfold graph_step. cbn [vis_nodes vis_edges].
    rewrite <- !app_assoc. reflexivity.
Qed.

Lemma get_graph_data_maps (nodes : list Node) (celebrity_name : string) :
  get_graph_data nodes celebrity_name
  = mkGraph (target_visual celebrity_name :: map person_visual nodes)
            (map person_edge nodes).
Proof. unfold get_graph_data. rewrite graph_loop. reflexivity. Qed.

Lemma dict_get_some (d : list (string * string)) (k default : string) :
  (In (k, dict_get d (Some k) default) d)
  \/ (dict_get d (Some k) default = default
      /\ forall v, ~ In (k, v) d).
Proof.
  induction d as [| [k' v'] r IH]; simpl.
  - right. split; [reflexivity | intros v []].
  - destruct (String.eqb_spec k k') as [E | NE].
    + left. left. subst. reflexivity.
    + destruct IH as [I | [D N]].
      * left. right. exact I.
      * right. split; [exact D |].
        intros v [H | H]; [congruence | exact (N v H)].
Qed.

End GraphFacts.

(** C5: for [n] rows the projection returns [n + 1] visual nodes, the target
    under the reserved identifier first and then one per row in input order,
    and [n] edges, the [i]-th from row [i] to the target. *)
Theorem graph_has_one_node_and_one_edge_per_row
  (nodes : list Node) (celebrity_name : string) :
  let g := get_graph_data nodes celebrity_name in
  List.length (vis_nodes g) = S (List.length nodes)
  /\ List.length (vis_edges g) = List.length nodes
  /\ vis_nodes g = target_visual celebrity_name :: map person_visual nodes
  /\ vis_edges g = map person_edge nodes
  /\ (exists t, target_visual celebrity_name = VTarget t
                /\ tv_id t = "celebrity" /\ tv_label t = celebrity_name)
  /\ (forall i n, nth_error nodes i = Some n ->
        exists p e,
          nth_error (vis_nodes g) (S i) = Some (VPerson p)
          /\ pv_id p = str_of_id (id n)
          /\ nth_error (vis_edges g) i = Some e
          /\ edge_from e = str_of_id (id n)
          /\ edge_to e = "celebrity").
Proof.
  intros g. unfold g. rewrite GraphFacts.get_graph_data_maps.
  cbn [vis_nodes vis_edges].
  split; [simpl; rewrite length_map; reflexivity |].
  split; [apply length_map |].
  split; [reflexivity |]. split; [reflexivity |]. split.
  - eexists. split; [reflexivity |]. split; reflexivity.
  - intros i n H. cbn [nth_error].
    rewrite !nth_error_map, H. cbn [option_map].
    eexists. eexists. split; [reflexivity |]. repeat split; reflexivity.
Qed.

(** C8: the visual node of a row has size [20 + floor(warm_score / 10)] and
    takes both its colours from the six-entry table at the row's relationship
    type, or the fallback when the type is not a key of the table; the edge of
    the row has width 3 when the hop distance is 1 and width 1 otherwise, and
    is dashed exactly when the hop distance is above 1. *)
Theorem visual_attributes_of_a_row
  (nodes : list Node) (celebrity_name : string) (i : nat) (n : Node) :
  nth_error nodes i = Some n ->
  exists p e c,
    nth_error (vis_nodes (get_graph_data nodes celebrity_name)) (S i)
    = Some (VPerson p)
    /\ nth_error (vis_edges (get_graph_data nodes celebrity_name)) i = Some e
    /\ pv_size p = 20 + warm_score n / 10
    /\ 10 * (pv_size p - 20) <= warm_score n < 10 * (pv_size p - 20) + 10
    /\ pv_color p = mkColor c c
    /\ List.length color_map = 6%nat
    /\ match relationship_type n with
       | Some t => In (t, c) color_map
                   \/ (c = "#A0A0A0" /\ forall v, ~ In (t, v) color_map)
       | None => c = "#A0A0A0"
       end
    /\ (hop_distance n = 1 -> edge_width e = 3)
    /\ (hop_distance n <> 1 -> edge_width e = 1)
    /\ (edge_dashes e = true <-> 1 < hop_distance n).
Proof.
  intros H. rewrite GraphFacts.get_graph_data_maps.
  cbn [vis_nodes vis_edges nth_error].
  rewrite !nth_error_map, H. cbn [option_map].
  eexists. eexists.
  exists (dict_get color_map (relationship_type n) "#A0A0A0").
  split; [reflexivity |]. split; [reflexivity |].
  cbn [pv_size pv_color person_edge edge_width edge_dashes].
  split; [reflexivity |]. split.
  - pose proof (Z.div_mod (warm_score n) 10 ltac:(lia)) as D.
    pose proof (Z.mod_pos_bound (warm_score n) 10 ltac:(lia)) as M. lia.
  - split; [reflexivity |]. split; [reflexivity |]. split.
    + destruct (relationship_type n) as [t |]; [| reflexivity].
      apply GraphFacts.dict_get_some.
    + split; [| split].
      * intros ->. reflexivity.
      * intros NE. apply Z.eqb_neq in NE. rewrite NE. reflexivity.
      * apply Z.ltb_lt.
Qed.

Lemma visual_attributes_of_a_row_witness :
  exists p e c,
    nth_error (vis_nodes (get_graph_data [warm_but_far; film_person] "Eve")) 2
    = Some (VPerson p)
    /\ nth_error (vis_edges (get_graph_data [warm_but_far; film_person] "Eve")) 1
       = Some e
    /\ pv_size p = 20 + warm_score film_person / 10
    /\ 10 * (pv_size p - 20) <= warm_score film_person
       < 10 * (pv_size p - 20) + 10
    /\ pv_color p = mkColor c c
    /\ List.length color_map = 6%nat
    /\ match relationship_type film_person with
       | Some t => In (t, c) color_map
                   \/ (c = "#A0A0A0" /\ forall v, ~ In (t, v) color_map)
       | None => c = "#A0A0A0"
       end
    /\ (hop_distance film_person = 1 -> edge_width e = 3)
    /\ (hop_distance film_person <> 1 -> edge_width e = 1)
    /\ (edge_dashes e = true <-> 1 < hop_distance film_person).
Proof.
  apply (visual_attributes_of_a_row [warm_but_far; film_person] "Eve" 1
           film_person).
  reflexivity.
Defined.

Lemma graph_has_one_node_and_one_edge_per_row_witness :
  let g := get_graph_data [warm_but_far; film_person] "Eve" in
  List.length (vis_nodes g) = 3%nat
  /\ List.length (vis_edges g) = 2%nat
  /\ vis_nodes g
     = target_visual "Eve" :: map person_visual [warm_but_far; film_person]
  /\ vis_edges g = map person_edge [warm_but_far; film_person]
  /\ (exists t, target_visual "Eve" = VTarget t
                /\ tv_id t = "celebrity" /\ tv_label t = "Eve")
  /\ (forall i n, nth_error [warm_but_far; film_person] i = Some n ->
        exists p e,
          nth_error (vis_nodes g) (S i) = Some (VPerson p)
          /\ pv_id p = str_of_id (id n)
          /\ nth_error (vis_edges g) i = Some e
          /\ edge_from e = str_of_id (id n)
          /\ edge_to e = "celebrity").
Proof.
  exact (graph_has_one_node_and_one_edge_per_row
           [warm_but_far; film_person] "Eve").
Defined.

(** ** Further properties of the graph service *)

Module GraphServiceFacts.
Import Binary64 Binary64Facts.

Lemma sum_perm (l l' : list Z) : Permutation l l' -> Py.sum l = Py.sum l'.
Proof.
  induction 1 as [| x l l' P IH | x y l | l l' l'' P1 IH1 P2 IH2].
  - reflexivity.
  - rewrite !AccessScore.sum_cons, IH. reflexivity.
  - rewrite !AccessScore.sum_cons. lia.
  - congruence.
Qed.

Lemma filter_length_perm {A : Type} (f : A -> bool) (l l' : list A) :
  Permutation l l' -> List.length (filter f l) = List.length (filter f l').
Proof.
  induction 1 as [| x l l' P IH | x y l | l l' l'' P1 IH1 P2 IH2]; simpl.
  - reflexivity.
  - destruct (f x); simpl; rewrite IH; reflexivity.
  - destruct (f x), (f y); reflexivity.
  - congruence.
Qed.

Lemma nodup_length_perm (l l' : list (option string)) :
  Permutation l l' ->
  List.length (nodup option_string_dec l)
  = List.length (nodup option_string_dec l').
Proof.
  intros P. apply Permutation_length. apply NoDup_Permutation.
  - apply NoDup_nodup.
  - apply NoDup_nodup.
  - intros x. rewrite !nodup_In. split; intros H.
    + exact (Permutation_in x P H).
    + exact (Permutation_in x (Permutation_sym P) H).
Qed.

Lemma direct_bonus_perm (nodes nodes' : list Node) :
  Permutation nodes nodes' -> direct_bonus nodes = direct_bonus nodes'.
Proof.
  intros P. unfold direct_bonus, Py.len.
  rewrite (filter_length_perm _ _ _ P). reflexivity.
Qed.

Lemma variety_bonus_perm (nodes nodes' : list Node) :
  Permutation nodes nodes' -> variety_bonus nodes = variety_bonus nodes'.
Proof.
  intros P. unfold variety_bonus, Py.len.
  rewrite (nodup_length_perm _ _ (Permutation_map relationship_type P)).
  reflexivity.
Qed.

(** The float division of [int(sum / len)] is exact on the sums of one or two
    warm scores of the data model. *)
Lemma small_quotients_exact (s n : Z) :
  0 <= s <= 200 -> n = 1 \/ n = 2 ->
  Qtrunc (round64 (inject_Z s / inject_Z n)) = s / n.
Proof.
  intros Hs Hn.
  assert (C : forallb
                (fun k =>
                   (Qtrunc (round64 (inject_Z k / inject_Z 1)) =? k / 1)
                   && (Qtrunc (round64 (inject_Z k / inject_Z 2)) =? k / 2))
                (map Z.of_nat (seq 0 201)) = true).
  { vm_compute. reflexivity. }
  rewrite forallb_forall in C.
  assert (I : In s (map Z.of_nat (seq 0 201))).
  { apply in_map_iff. exists (Z.to_nat s). split; [lia |].
    apply in_seq. lia. }
  specialize (C s I). apply andb_true_iff in C. destruct C as [C1 C2].
  apply Z.eqb_eq in C1, C2. destruct Hn as [-> | ->]; assumption.
Qed.

Lemma path_warm_sum (ranked rest : list ScoredNode) (top : ScoredNode) :
  ranked = top :: rest ->
  Forall (fun x => warm_in_range (node x)) ranked ->
  0 <= Py.sum (map pe_warm_score (build_path ranked top))
    <= 100 * Py.len (build_path ranked top)
  /\ (Py.len (build_path ranked top) = 1 \/ Py.len (build_path ranked top) = 2).
Proof.
  intros E Hr.
  assert (Htop : warm_in_range (node top)).
  { rewrite Forall_forall in Hr. apply Hr. rewrite E. left. reflexivity. }
  destruct (PathFacts.build_path_cases ranked top)
    as [[_ [bridge [tl [F ->]]]] | [_ ->]].
  - assert (Hb : warm_in_range (node bridge)).
    { rewrite Forall_forall in Hr. apply Hr.
      assert (I : In bridge (bridge :: tl)) by (left; reflexivity).
      rewrite <- F in I. apply filter_In in I. apply I. }
    unfold warm_in_range in *. simpl map.
    rewrite !AccessScore.sum_cons. unfold Py.sum, Py.len. simpl. lia.
  - unfold warm_in_range in *. simpl map.
    rewrite !AccessScore.sum_cons. unfold Py.sum, Py.len. simpl. lia.
Qed.

(** All five fields of the record returned on a non-empty ranking. *)
Lemma recommend_fields (ranked rest : list ScoredNode) (top : ScoredNode) :
  ranked = top :: rest ->
  Forall (fun x => warm_in_range (node x)) ranked ->
  exists r,
    recommend ranked = Some r
    /\ path r = build_path ranked top
    /\ total_hops r = hop_distance (node top) + 1
    /\ path_score r
       = Py.sum (map pe_warm_score (path r)) / Py.len (path r)
    /\ entry_point r = Some (path_entry top)
    /\ all_nodes r = Some (map node_summary (firstn 8 ranked)).
Proof.
  intros E Hr.
  destruct (path_warm_sum ranked rest top E Hr) as [Hs Hl].
  assert (Hm : Py.max (map pe_hop (build_path ranked top))
               = Some (hop_distance (node top))).
  { destruct (PathFacts.build_path_cases ranked top)
      as [[L [bridge [tl [F ->]]]] | [_ ->]]; [| reflexivity].
    assert (I : In bridge (bridge :: tl)) by (left; reflexivity).
    rewrite <- F in I. apply filter_In in I. destruct I as [_ Hb].
    apply Z.eqb_eq in Hb. unfold Py.max. simpl. rewrite Hb. f_equal. lia. }
  assert (Hq : Py.truediv (Py.sum (map pe_warm_score (build_path ranked top)))
                          (Py.len (build_path ranked top))
               = Some (round64
                         (inject_Z (Py.sum (map pe_warm_score
                                                (build_path ranked top)))
                          / inject_Z (Py.len (build_path ranked top))))).
  { destruct (PathFacts.truediv_returns
                (Py.sum (map pe_warm_score (build_path ranked top)))
                (Py.len (build_path ranked top))) as [q Hq]; [lia | lia |].
    rewrite Hq. f_equal.
    unfold Py.truediv in Hq.
    destruct (Py.len (build_path ranked top) =? 0); [discriminate |].
    exact (fl_Some _ _ Hq). }
  unfold recommend. rewrite E. rewrite <- E.
  rewrite Hm. cbn [Py.bind]. rewrite Hq. cbn [Py.bind].
  eexists. split; [reflexivity |].
  cbn [path total_hops path_score entry_point all_nodes].
  split; [reflexivity |]. split; [reflexivity |]. split.
  - unfold Py.int_of_float. apply small_quotients_exact; lia.
  - split; [| reflexivity].
    destruct (PathFacts.build_path_cases ranked top)
      as [[_ [bridge [tl [_ ->]]]] | [_ ->]]; reflexivity.
Qed.

(** With hop distances of at least 1 the ranking is the stable sort on
    descending [final_score]. *)
Lemma rank_by_score {L : Py.Lower} (ctx : option UserContext) (nodes : list Node) :
  Forall hop_positive nodes ->
  rank (score_nodes ctx nodes)
  = sort_by_final_score_desc (score_nodes ctx nodes).
Proof.
  intros Hhop. unfold rank, sort_by_final_score_desc.
  apply SortFacts.sort_ext. intros x y Hx Hy.
  apply PathFacts.score_nodes_in in Hx, Hy.
  rewrite Forall_forall in Hhop.
  pose proof (Hhop _ Hx) as Px. pose proof (Hhop _ Hy) as Py'.
  unfold hop_positive in Px, Py'. unfold Py.tuple_ltb, sort_key. cbn [fst snd].
  replace (- hop_distance (node x) =? 1) with false
    by (symmetry; apply Z.eqb_neq; lia).
  replace (- hop_distance (node y) =? 1) with false
    by (symmetry; apply Z.eqb_neq; lia).
  reflexivity.
Qed.

End GraphServiceFacts.

(** X1: the access score does not depend on the order of the rows. *)
Theorem access_score_order_irrelevant (nodes nodes' : list Node) :
  Permutation nodes nodes' ->
  calculate_access_score nodes = calculate_access_score nodes'.
Proof.
  intros P.
  destruct nodes as [| n r].
  - apply Permutation_nil in P. subst. reflexivity.
  - destruct nodes' as [| n' r'].
    { apply Permutation_sym, Permutation_nil in P. discriminate. }
    rewrite !AccessScore.calculate_access_score_unfold by discriminate.
    rewrite (GraphServiceFacts.sum_perm _ _ (Permutation_map warm_score P)).
    rewrite (GraphServiceFacts.direct_bonus_perm _ _ P).
    rewrite (GraphServiceFacts.variety_bonus_perm _ _ P).
    unfold Py.len. rewrite (Permutation_length P). reflexivity.
Qed.

Lemma access_score_order_irrelevant_witness :
  calculate_access_score [warm_but_far; cool_but_near; cy]
  = calculate_access_score [cy; warm_but_far; cool_but_near].
Proof.
  apply (access_score_order_irrelevant
           [warm_but_far; cool_but_near; cy] [cy; warm_but_far; cool_but_near]).
  apply Permutation_sym.
  apply (Permutation_cons_app [warm_but_far; cool_but_near] [] cy).
  apply Permutation_refl.
Defined.

(** X2: on a non-empty node set [total_hops] is the hop distance of the entry
    node plus one; a bridge, whose hop distance is 1, never changes it. *)
Theorem total_hops_is_entry_hop_plus_one {L : Py.Lower}
  (nodes : list Node) (ctx : option UserContext) :
  nodes <> [] ->
  Forall warm_in_range nodes ->
  exists r e,
    find_best_path nodes ctx = Some r
    /\ entry_point r = Some e
    /\ total_hops r = pe_hop e + 1
    /\ Forall (fun p => pe_hop p + 1 <= total_hops r) (path r).
Proof.
  intros Hne Hw.
  destruct (rank (score_nodes ctx nodes)) as [| top rest] eqn:E.
  { exfalso. exact (PathFacts.rank_nonempty ctx nodes Hne E). }
  pose proof (PathFacts.ranked_in_range ctx nodes Hw) as Hr.
  destruct (GraphServiceFacts.recommend_fields _ rest top E Hr)
    as [r [R [P [T [_ [EP _]]]]]].
  exists r, (path_entry top).
  rewrite (PathFacts.find_best_path_nonempty nodes ctx Hne), E, <- E.
  split; [exact R |]. split; [exact EP |]. split; [exact T |].
  rewrite P, T.
  destruct (PathFacts.build_path_cases (rank (score_nodes ctx nodes)) top)
    as [[Hfar [bridge [tl [F ->]]]] | [_ ->]].
  - assert (I : In bridge (bridge :: tl)) by (left; reflexivity).
    rewrite <- F in I. apply filter_In in I. destruct I as [_ Hb].
    apply Z.eqb_eq in Hb.
    repeat constructor; cbn [pe_hop path_entry]; lia.
  - repeat constructor; cbn [pe_hop path_entry]; lia.
Qed.

Lemma total_hops_is_entry_hop_plus_one_witness :
  exists r e,
    find_best_path [warm_but_far; cool_but_near] None = Some r
    /\ entry_point r = Some e
    /\ total_hops r = pe_hop e + 1
    /\ Forall (fun p => pe_hop p + 1 <= total_hops r) (path r).
Proof.
  apply (total_hops_is_entry_hop_plus_one [warm_but_far; cool_but_near] None).
  - discriminate.
  - repeat constructor; unfold warm_in_range; simpl; lia.
Defined.

(** X3: on a non-empty node set of the data model [path_score] is the floor
    of the mean warm score of the path, so it lies in [0,100]; on a
    one-element path it is the warm score of the entry node. *)
Theorem path_score_is_floor_of_mean {L : Py.Lower}
  (nodes : list Node) (ctx : option UserContext) :
  nodes <> [] ->
  Forall warm_in_range nodes ->
  exists r,
    find_best_path nodes ctx = Some r
    /\ path_score r = Py.sum (map pe_warm_score (path r)) / Py.len (path r)
    /\ 0 <= path_score r <= 100
    /\ (forall e, path r = [e] -> path_score r = pe_warm_score e).
Proof.
  intros Hne Hw.
  destruct (rank (score_nodes ctx nodes)) as [| top rest] eqn:E.
  { exfalso. exact (PathFacts.rank_nonempty ctx nodes Hne E). }
  pose proof (PathFacts.ranked_in_range ctx nodes Hw) as Hr.
  destruct (GraphServiceFacts.recommend_fields _ rest top E Hr)
    as [r [R [P [_ [S _]]]]].
  destruct (GraphServiceFacts.path_warm_sum _ rest top E Hr) as [Hs Hl].
  rewrite <- P in Hs, Hl.
  exists r.
  rewrite (PathFacts.find_best_path_nonempty nodes ctx Hne), E, <- E.
  split; [exact R |]. split; [exact S |]. split.
  - rewrite S. split.
    + apply Z.div_pos; lia.
    + apply Z.div_le_upper_bound; lia.
  - intros e He. rewrite S, He. unfold Py.sum, Py.len. simpl.
    apply Z.div_1_r.
Qed.

Lemma path_score_is_floor_of_mean_witness :
  exists r,
    find_best_path [warm_but_far; cool_but_near] None = Some r
    /\ path_score r = Py.sum (map pe_warm_score (path r)) / Py.len (path r)
    /\ 0 <= path_score r <= 100
    /\ (forall e, path r = [e] -> path_score r = pe_warm_score e).
Proof.
  apply (path_score_is_floor_of_mean [warm_but_far; cool_but_near] None).
  - discriminate.
  - repeat constructor; unfold warm_in_range; simpl; lia.
Defined.

(** X4: [all_nodes] lists the first eight rows of the ranking, so it has
    [min(8, n)] entries, and its first entry is the row of the entry point. *)
Theorem all_nodes_is_top_eight {L : Py.Lower}
  (nodes : list Node) (ctx : option UserContext) :
  nodes <> [] ->
  Forall warm_in_range nodes ->
  exists r summaries e,
    find_best_path nodes ctx = Some r
    /\ all_nodes r = Some summaries
    /\ summaries
       = map node_summary (firstn 8 (rank (score_nodes ctx nodes)))
    /\ List.length summaries = Nat.min 8 (List.length nodes)
    /\ entry_point r = Some e
    /\ option_map ns_node_id (hd_error summaries) = Some (pe_node_id e)
    /\ option_map ns_person_name (hd_error summaries)
       = Some (pe_person_name e).
Proof.
  intros Hne Hw.
  destruct (rank (score_nodes ctx nodes)) as [| top rest] eqn:E.
  { exfalso. exact (PathFacts.rank_nonempty ctx nodes Hne E). }
  pose proof (PathFacts.ranked_in_range ctx nodes Hw) as Hr.
  destruct (GraphServiceFacts.recommend_fields _ rest top E Hr)
    as [r [R [_ [_ [_ [EP A]]]]]].
  rewrite E in R, A.
  exists r, (map node_summary (firstn 8 (top :: rest))), (path_entry top).
  rewrite (PathFacts.find_best_path_nonempty nodes ctx Hne), E.
  split; [exact R |]. split; [exact A |]. split; [reflexivity |]. split.
  - rewrite length_map, length_firstn, <- E.
    unfold rank. rewrite SortFacts.sort_length.
    unfold score_nodes. rewrite length_map. reflexivity.
  - split; [exact EP |]. split; reflexivity.
Qed.

Lemma all_nodes_is_top_eight_witness :
  exists r summaries e,
    find_best_path [warm_but_far; cool_but_near] None = Some r
    /\ all_nodes r = Some summaries
    /\ summaries
       = map node_summary
           (firstn 8 (rank (score_nodes None [warm_but_far; cool_but_near])))
    /\ List.length summaries
       = Nat.min 8 (List.length [warm_but_far; cool_but_near])
    /\ entry_point r = Some e
    /\ option_map ns_node_id (hd_error summaries) = Some (pe_node_id e)
    /\ option_map ns_person_name (hd_error summaries)
       = Some (pe_person_name e).
Proof.
  apply (all_nodes_is_top_eight [warm_but_far; cool_but_near] None).
  - discriminate.
  - repeat constructor; unfold warm_in_range; simpl; lia.
Defined.

(** X5: when every hop distance is at least 1, the entry node is a row of
    highest [final_score], whatever its hop distance, and among the rows of
    that score it is the first of the input. *)
Theorem entry_has_highest_final_score {L : Py.Lower}
  (nodes : list Node) (ctx : option UserContext) :
  nodes <> [] ->
  Forall hop_positive nodes ->
  exists top rest,
    rank (score_nodes ctx nodes) = top :: rest
    /\ (forall x, In x (score_nodes ctx nodes) ->
                  final_score x <= final_score top)
    /\ hd_error (filter (fun x => final_score x =? final_score top)
                        (score_nodes ctx nodes)) = Some top.
Proof.
  intros Hne Hhop.
  pose proof (GraphServiceFacts.rank_by_score ctx nodes Hhop) as Heq.
  pose proof (SortFacts.sort_sorted (fun x => - final_score x) Z.ltb
                (fun a b H => proj2 (Z.ltb_ge _ _)
                                (Z.lt_le_incl _ _ (proj1 (Z.ltb_lt _ _) H)))
                (fun a b c H1 H2 =>
                   proj2 (Z.ltb_ge _ _)
                     (Z.le_trans _ _ _ (proj1 (Z.ltb_ge _ _) H1)
                                       (proj1 (Z.ltb_ge _ _) H2)))
                (score_nodes ctx nodes)) as Hs.
  fold (sort_by_final_score_desc (score_nodes ctx nodes)) in Hs.
  rewrite <- Heq in Hs.
  assert (St : forall s,
             filter (fun x => final_score x =? s) (rank (score_nodes ctx nodes))
             = filter (fun x => final_score x =? s) (score_nodes ctx nodes)).
  { intros s. rewrite Heq. unfold sort_by_final_score_desc.
    apply SortFacts.sort_stable. intros a b Ha Hb.
    apply Z.eqb_eq in Ha, Hb. apply Z.ltb_ge. lia. }
  destruct (rank (score_nodes ctx nodes)) as [| top rest] eqn:E.
  { exfalso. exact (PathFacts.rank_nonempty ctx nodes Hne E). }
  exists top, rest. split; [reflexivity |].
  apply StronglySorted_inv in Hs. destruct Hs as [_ Hall].
  rewrite Forall_forall in Hall. split.
  - intros x Hx.
    assert (I : In x (top :: rest)).
    { rewrite <- E. apply (Permutation_in x
                             (Permutation_sym (PathFacts.rank_perm _))).
      exact Hx. }
    destruct I as [<- | I]; [lia |].
    specialize (Hall x I). unfold Py.before in Hall.
    apply Z.ltb_ge in Hall. lia.
  - rewrite <- (St (final_score top)).
    simpl. rewrite Z.eqb_refl. reflexivity.
Qed.

Lemma entry_has_highest_final_score_witness :
  exists top rest,
    rank (score_nodes None [cool_but_near; warm_but_far]) = top :: rest
    /\ (forall x, In x (score_nodes None [cool_but_near; warm_but_far]) ->
                  final_score x <= final_score top)
    /\ hd_error (filter (fun x => final_score x =? final_score top)
                        (score_nodes None [cool_but_near; warm_but_far]))
       = Some top.
Proof.
  apply (entry_has_highest_final_score [cool_but_near; warm_but_far] None).
  - discriminate.
  - repeat constructor; unfold hop_positive; simpl; lia.
Defined.

(** X6: a requester context never lowers a score: [final_score] is at least
    [warm_score] and at most [warm_score + 15 + 10 * len(connections)]. *)
Theorem context_never_lowers_score {L : Py.Lower}
  (user_context : option UserContext) (n : Node) :
  warm_score n <= context_score user_context n
  /\ context_score user_context n
     <= warm_score n + 15
        + 10 * Py.len (match user_context with
                       | Some c => match ctx_connections c with
                                   | Some l => l
                                   | None => []
                                   end
                       | None => []
                       end).
Proof.
  unfold context_score. destruct user_context as [c |].
  - destruct (context_truthy c).
    + rewrite PathFacts.context_score_fold.
      set (conns := match ctx_connections c with Some l => l | None => [] end).
      pose proof (AccessScore.len_nonneg
                    (filter (fun conn => Py.str_in (Py.lower conn) (node_text n))
                            conns)) as H0.
      assert (H1 : Py.len (filter (fun conn =>
                                     Py.str_in (Py.lower conn) (node_text n))
                                  conns) <= Py.len conns).
      { unfold Py.len. apply inj_le. apply filter_length_le. }
      destruct (Py.str_truthy _ && Py.str_in _ _); lia.
    + pose proof (AccessScore.len_nonneg
                    (match ctx_connections c with Some l => l | None => [] end)).
      lia.
  - unfold Py.len. simpl. lia.
Qed.

(** X7: on rows of the data model every person node has a size between 20
    and 30, below the 40 of the target node. *)
Theorem person_nodes_smaller_than_target
  (nodes : list Node) (celebrity_name : string) :
  Forall warm_in_range nodes ->
  Forall (fun v =>
            match v with
            | VTarget t => tv_size t = 40
            | VPerson p => 20 <= pv_size p <= 30
            end)
         (vis_nodes (get_graph_data nodes celebrity_name)).
Proof.
  intros Hw. rewrite GraphFacts.get_graph_data_maps. cbn [vis_nodes].
  constructor; [reflexivity |].
  rewrite Forall_map. rewrite Forall_forall in Hw |- *.
  intros n Hn. specialize (Hw n Hn). unfold warm_in_range in Hw.
  cbn [person_visual pv_size]. split.
  - pose proof (Z.div_pos (warm_score n) 10). lia.
  - assert (warm_score n / 10 <= 10) by (apply Z.div_le_upper_bound; lia).
    lia.
Qed.

Lemma person_nodes_smaller_than_target_witness :
  Forall (fun v =>
            match v with
            | VTarget t => tv_size t = 40
            | VPerson p => 20 <= pv_size p <= 30
            end)
         (vis_nodes (get_graph_data [warm_but_far; film_person] "Eve")).
Proof.
  apply (person_nodes_smaller_than_target [warm_but_far; film_person] "Eve").
  repeat constructor; unfold warm_in_range; simpl; lia.
Defined.

(** ** Python strings *)

Module PyStrFacts.

Lemma app_assoc_str (a b c : string) : ((a ++ b) ++ c = a ++ (b ++ c))%string.
Proof. induction a as [| x a IH]; simpl; congruence. Qed.

Lemma app_empty_r (a : string) : (a ++ "")%string = a.
Proof. induction a as [| x a IH]; simpl; congruence. Qed.

Lemma rstrip_nonspace (c : ascii) (r : string) :
  PyStr.is_space c = false ->
  PyStr.rstrip (String c r) = String c (PyStr.rstrip r).
Proof.
  intros H. simpl. destruct (PyStr.rstrip r); [rewrite H |]; reflexivity.
Qed.

Lemma rstrip_cons (c : ascii) (r : string) :
  PyStr.rstrip r <> EmptyString ->
  PyStr.rstrip (String c r) = String c (PyStr.rstrip r).
Proof.
  intros H. simpl. destruct (PyStr.rstrip r); [congruence | reflexivity].
Qed.

Lemma rstrip_app (a b : string) :
  PyStr.rstrip b <> EmptyString ->
  PyStr.rstrip (a ++ b) = (a ++ PyStr.rstrip b)%string.
Proof.
  intros H. induction a as [| c a IH]; [reflexivity |].
  simpl append. rewrite rstrip_cons; rewrite IH; [reflexivity |].
  destruct a; simpl; [exact H | discriminate].
Qed.

Lemma lstrip_length (s : string) :
  (String.length (PyStr.lstrip s) <= String.length s)%nat.
Proof.
  induction s as [| c r IH]; simpl; [lia |].
  destruct (PyStr.is_space c); simpl; lia.
Qed.

Lemma rstrip_length (s : string) :
  (String.length (PyStr.rstrip s) <= String.length s)%nat.
Proof.
  induction s as [| c r IH]; simpl; [lia |].
  destruct (PyStr.rstrip r); [destruct (PyStr.is_space c) |]; simpl in *; lia.
Qed.

(** A string that [strip] leaves alone is left alone by both halves. *)
Lemma stripped_both (s : string) :
  stripped s -> PyStr.lstrip s = s /\ PyStr.rstrip s = s.
Proof.
  unfold stripped, PyStr.strip. intros H.
  assert (L : PyStr.lstrip s = s).
  { pose proof (rstrip_length (PyStr.lstrip s)) as R. rewrite H in R.
    destruct s as [| c r]; [reflexivity |]. simpl in *.
    destruct (PyStr.is_space c); [| reflexivity].
    pose proof (lstrip_length r). lia. }
  rewrite L in H. split; assumption.
Qed.

Lemma strip_after_blank (s : string) :
  stripped s -> PyStr.strip (String " " s) = s.
Proof.
  intros H. destruct (stripped_both s H) as [L R].
  unfold PyStr.strip. simpl PyStr.lstrip.
  change (PyStr.is_space " ") with true. cbv iota. rewrite L. exact R.
Qed.

Lemma newline_in_cons (c : ascii) (r : string) :
  Py.str_in (String newline_char "") (String c r)
  = Ascii.eqb c newline_char || Py.str_in (String newline_char "") r.
Proof.
  change (Py.str_in (String newline_char "") (String c r))
    with (String.prefix (String newline_char "") (String c r)
          || Py.str_in (String newline_char "") r).
  change (String.prefix (String newline_char "") (String c r))
    with (if ascii_dec newline_char c then String.prefix "" r else false).
  destruct (ascii_dec newline_char c) as [E | NE].
  - subst. rewrite Ascii.eqb_refl. destruct r; reflexivity.
  - destruct (Ascii.eqb_spec c newline_char); [congruence | reflexivity].
Qed.

Lemma single_line_cons (c : ascii) (r : string) :
  single_line (String c r) ->
  Ascii.eqb c newline_char = false /\ single_line r.
Proof.
  unfold single_line. rewrite newline_in_cons. apply orb_false_iff.
Qed.

Lemma split_single_line (a : string) :
  single_line a -> PyStr.split newline_char a = [a].
Proof.
  induction a as [| c r IH]; intros H; [reflexivity |].
  apply single_line_cons in H. destruct H as [Hc Hr].
  simpl. rewrite Hc, (IH Hr). reflexivity.
Qed.

Lemma split_app (a b : string) :
  single_line a ->
  PyStr.split newline_char (a ++ String newline_char b)
  = a :: PyStr.split newline_char b.
Proof.
  induction a as [| c r IH]; intros H.
  - reflexivity.
  - apply single_line_cons in H. destruct H as [Hc Hr].
    simpl. rewrite Hc, (IH Hr). reflexivity.
Qed.

Lemma single_line_app (a b : string) :
  single_line a -> single_line b -> single_line (a ++ b).
Proof.
  intros Ha Hb. induction a as [| c r IH]; [exact Hb |].
  apply single_line_cons in Ha. destruct Ha as [Hc Hr].
  unfold single_line in *. simpl append. rewrite newline_in_cons, Hc.
  exact (IH Hr).
Qed.

End PyStrFacts.

Module AiFacts.
Import PyStrFacts.

Lemma app_nonempty (a b : string) :
  b <> EmptyString -> (a ++ b)%string <> EmptyString.
Proof. intros H. destruct a; simpl; [exact H | discriminate]. Qed.

Lemma rstrip_app_keeps (a b : string) :
  PyStr.rstrip b <> EmptyString ->
  PyStr.rstrip (a ++ b) = (a ++ PyStr.rstrip b)%string
  /\ PyStr.rstrip (a ++ b) <> EmptyString.
Proof.
  intros H. rewrite (rstrip_app a b H). split; [reflexivity |].
  apply app_nonempty. exact H.
Qed.

Lemma rstrip_cons_keeps (c : ascii) (b : string) :
  PyStr.rstrip b <> EmptyString ->
  PyStr.rstrip (String c b) = String c (PyStr.rstrip b)
  /\ PyStr.rstrip (String c b) <> EmptyString.
Proof.
  intros H. rewrite (rstrip_cons c b H). split; [reflexivity | discriminate].
Qed.

Lemma rstrip_last_line (s : string) :
  stripped s ->
  PyStr.rstrip ("SUBJECT_LINE: " ++ s) = last_line s
  /\ PyStr.rstrip ("SUBJECT_LINE: " ++ s) <> EmptyString.
Proof.
  intros H. destruct (stripped_both s H) as [_ R].
  assert (E : PyStr.rstrip ("SUBJECT_LINE: " ++ s) = last_line s).
  { simpl append.
    rewrite !rstrip_nonspace by reflexivity.
    destruct s as [| x r]; [reflexivity |].
    rewrite rstrip_cons; rewrite R; [reflexivity | discriminate]. }
  rewrite E. split; [reflexivity |]. destruct s; discriminate.
Qed.

Lemma strip_answer (v e c s : string) :
  stripped s ->
  PyStr.strip (leverage_answer v e c s)
  = (("VALUE_PROP: " ++ v) ++ String newline_char
     (("EGO_HOOK: " ++ e) ++ String newline_char
      (("CURIOSITY_HOOK: " ++ c) ++ String newline_char (last_line s))))%string.
Proof.
  intros Hs. destruct (rstrip_last_line s Hs) as [L0 N0].
  unfold PyStr.strip, leverage_answer.
  change (PyStr.lstrip ("VALUE_PROP: " ++ ?x)) with ("VALUE_PROP: " ++ x)%string.
  destruct (rstrip_cons_keeps newline_char _ N0) as [L1 N1].
  destruct (rstrip_app_keeps c _ N1) as [L2 N2].
  destruct (rstrip_app_keeps "CURIOSITY_HOOK: " _ N2) as [L3 N3].
  destruct (rstrip_cons_keeps newline_char _ N3) as [L4 N4].
  destruct (rstrip_app_keeps e _ N4) as [L5 N5].
  destruct (rstrip_app_keeps "EGO_HOOK: " _ N5) as [L6 N6].
  destruct (rstrip_cons_keeps newline_char _ N6) as [L7 N7].
  destruct (rstrip_app_keeps v _ N7) as [L8 N8].
  destruct (rstrip_app_keeps "VALUE_PROP: " _ N8) as [L9 _].
  rewrite L9, L8, L7, L6, L5, L4, L3, L2, L1, L0.
  rewrite !app_assoc_str. reflexivity.
Qed.

Lemma single_line_last (s : string) : single_line s -> single_line (last_line s).
Proof.
  intros H. destruct s as [| x r]; [reflexivity |].
  unfold last_line. apply single_line_app; [reflexivity | exact H].
Qed.

Lemma parse_value_prop (result : list (string * string)) (v : string) :
  parse_line result ("VALUE_PROP: " ++ v)
  = PyStr.dict_set "value_prop" (PyStr.strip (String " " v)) result.
Proof. reflexivity. Qed.

Lemma parse_ego_hook (result : list (string * string)) (v : string) :
  parse_line result ("EGO_HOOK: " ++ v)
  = PyStr.dict_set "ego_hook" (PyStr.strip (String " " v)) result.
Proof. reflexivity. Qed.

Lemma parse_curiosity_hook (result : list (string * string)) (v : string) :
  parse_line result ("CURIOSITY_HOOK: " ++ v)
  = PyStr.dict_set "curiosity_hook" (PyStr.strip (String " " v)) result.
Proof. reflexivity. Qed.

Lemma parse_subject_line (result : list (string * string)) (s : string) :
  stripped s ->
  parse_line result (last_line s) = PyStr.dict_set "subject_line" s result.
Proof.
  intros H. destruct s as [| x r]; [reflexivity |].
  change (parse_line result (last_line (String x r)))
    with (PyStr.dict_set "subject_line" (PyStr.strip (String " " (String x r)))
                         result).
  rewrite (strip_after_blank _ H). reflexivity.
Qed.

End AiFacts.

(** X8: an answer in ASCII laid out as the prompt of [generate_leverage]
    asks, one [KEY: value] line per field, is read back field by field,
    provided each value fits on one line and has no blank at either end; a
    value may be empty and may contain colons. *)
Theorem leverage_round_trip (v e c s : string) :
  Py.isascii v = true -> Py.isascii e = true ->
  Py.isascii c = true -> Py.isascii s = true ->
  single_line v -> single_line e -> single_line c -> single_line s ->
  stripped v -> stripped e -> stripped c -> stripped s ->
  leverage_of_response (leverage_answer v e c s) = mkLeverage v e c s.
Proof.
  intros _ _ _ _ Lv Le Lc Ls Sv Se Sc Ss.
  unfold leverage_of_response, parse_response.
  rewrite (AiFacts.strip_answer v e c s Ss).
  rewrite !PyStrFacts.split_app
    by (apply PyStrFacts.single_line_app; [reflexivity | assumption]).
  rewrite (PyStrFacts.split_single_line _ (AiFacts.single_line_last s Ls)).
  cbn [fold_left].
  rewrite AiFacts.parse_value_prop, AiFacts.parse_ego_hook,
    AiFacts.parse_curiosity_hook, (AiFacts.parse_subject_line _ s Ss).
  rewrite !PyStrFacts.strip_after_blank by assumption.
  reflexivity.
Qed.

Lemma leverage_round_trip_witness :
  leverage_of_response
    (leverage_answer "Your fund backs tools: mine is one." ""
                     "Ask me what broke." "Six words that get opened")
  = mkLeverage "Your fund backs tools: mine is one." ""
               "Ask me what broke." "Six words that get opened".
Proof.
  apply (leverage_round_trip "Your fund backs tools: mine is one." ""
           "Ask me what broke." "Six words that get opened"); reflexivity.
Defined.

(** X9: of a message in ASCII that the model spreads over two lines only
    the first line is kept, the second being dropped when it holds no colon;
    the fields the answer leaves out take their defaults, and the hop number
    and the target are handed through. *)
Theorem outreach_message_keeps_first_line
  (first second subject : string) (hop_number : Z) (target_person : string) :
  Py.isascii first = true -> Py.isascii second = true ->
  Py.isascii subject = true ->
  single_line first -> single_line second -> single_line subject ->
  stripped first -> stripped subject ->
  Py.str_in ":" second = false ->
  outreach_of_response (two_line_answer first second subject)
                       hop_number target_person
  = mkOutreach first subject "Twitter DM or Email" "warm"
               (Py.len (PyStr.words first)) hop_number target_person.
Proof.
  intros _ _ _ L1 L2 L3 S1 S3 Hc.
  assert (E : parse_response (two_line_answer first second subject)
              = [("message", first); ("subject_line", subject)]).
  { unfold parse_response.
    destruct (AiFacts.rstrip_last_line subject S3) as [R0 N0].
    destruct (AiFacts.rstrip_cons_keeps newline_char _ N0) as [R1 N1].
    destruct (AiFacts.rstrip_app_keeps second _ N1) as [R2 N2].
    destruct (AiFacts.rstrip_cons_keeps newline_char _ N2) as [R3 N3].
    destruct (AiFacts.rstrip_app_keeps first _ N3) as [R4 N4].
    destruct (AiFacts.rstrip_app_keeps "MESSAGE: " _ N4) as [R5 _].
    unfold PyStr.strip, two_line_answer.
    change (PyStr.lstrip ("MESSAGE: " ++ ?x)) with ("MESSAGE: " ++ x)%string.
    rewrite R5, R4, R3, R2, R1, R0.
    rewrite <- (PyStrFacts.app_assoc_str "MESSAGE: " first).
    rewrite PyStrFacts.split_app
      by (apply PyStrFacts.single_line_app; [reflexivity | assumption]).
    rewrite PyStrFacts.split_app by assumption.
    rewrite (PyStrFacts.split_single_line _ (AiFacts.single_line_last _ L3)).
    cbn [fold_left].
    change (parse_line [] ("MESSAGE: " ++ first))
      with (PyStr.dict_set "message" (PyStr.strip (String " " first)) []).
    rewrite (PyStrFacts.strip_after_blank _ S1).
    assert (P2 : forall d, parse_line d second = d).
    { intros d. unfold parse_line. rewrite Hc. reflexivity. }
    rewrite P2, (AiFacts.parse_subject_line _ subject S3). reflexivity. }
  unfold outreach_of_response. rewrite E. reflexivity.
Qed.

Lemma outreach_message_keeps_first_line_witness :
  outreach_of_response
    (two_line_answer "Hi, my name is Dat." "I build tools for agents."
                     "A tool your client wants")
    2 "Bo"
  = mkOutreach "Hi, my name is Dat." "A tool your client wants"
               "Twitter DM or Email" "warm"
               (Py.len (PyStr.words "Hi, my name is Dat.")) 2 "Bo".
Proof.
  apply (outreach_message_keeps_first_line
           "Hi, my name is Dat." "I build tools for agents."
           "A tool your client wants" 2 "Bo"); reflexivity.
Defined.

Module HopLabelFacts.

Lemma to_int_not_nil (z : Z) :
  Z.to_int z <> Decimal.Pos Decimal.Nil /\ Z.to_int z <> Decimal.Neg Decimal.Nil.
Proof.
  pose proof (DecimalZ.to_of (Z.to_int z)) as H.
  rewrite DecimalZ.of_to in H.
  split; intros E; rewrite E in H; discriminate H.
Qed.

Lemma str_of_int_inj (a b : Z) : Py.str_of_int a = Py.str_of_int b -> a = b.
Proof.
  unfold Py.str_of_int. intros H.
  destruct (to_int_not_nil a) as [A1 A2].
  destruct (to_int_not_nil b) as [B1 B2].
  pose proof (NilZero.isi _ A1 A2) as Ia.
  pose proof (NilZero.isi _ B1 B2) as Ib.
  rewrite H in Ia. rewrite Ia in Ib. injection Ib as E.
  apply DecimalZ.to_int_inj. exact E.
Qed.

End HopLabelFacts.

(** X10: no two hop numbers share a label: 1, 2 and 3 have their three
    fixed labels and every other number [n] has ["HOP n"]. *)
Theorem hop_label_injective (a b : Z) : _hop_label a = _hop_label b -> a = b.
Proof.
  unfold _hop_label, hop_labels, labels_get.
  destruct (Z.eqb_spec a 1); destruct (Z.eqb_spec b 1); try lia;
  destruct (Z.eqb_spec a 2); destruct (Z.eqb_spec b 2); try lia;
  destruct (Z.eqb_spec a 3); destruct (Z.eqb_spec b 3); try lia;
  intros H; try discriminate H.
  apply HopLabelFacts.str_of_int_inj.
  injection H as H. exact H.
Qed.

Lemma hop_label_injective_witness : 4 = 4.
Proof. apply (hop_label_injective 4 4). reflexivity. Defined.

Module PackageFacts.

Lemma combine_fst {A B : Type} (l1 : list A) (l2 : list B) :
  List.length l1 = List.length l2 -> map fst (combine l1 l2) = l1.
Proof.
  revert l2. induction l1 as [| a r IH]; intros [| b t] H;
    try discriminate; [reflexivity |].
  simpl. f_equal. apply IH. injection H as H. exact H.
Qed.

Lemma combine_snd {A B : Type} (l1 : list A) (l2 : list B) :
  List.length l1 = List.length l2 -> map snd (combine l1 l2) = l2.
Proof.
  revert l2. induction l1 as [| a r IH]; intros [| b t] H;
    try discriminate; [reflexivity |].
  simpl. f_equal. apply IH. injection H as H. exact H.
Qed.

Lemma enumerate_indices {A : Type} (l : list A) :
  map fst (enumerate l) = map Z.of_nat (seq 0 (List.length l))
  /\ map snd (enumerate l) = l.
Proof.
  unfold enumerate. split.
  - apply combine_fst.
    rewrite length_map, length_seq. reflexivity.
  - apply combine_snd.
    rewrite length_map, length_seq. reflexivity.
Qed.

Lemma path_length_at_most_two {L : Py.Lower} (nodes : list Node) (ctx : option UserContext)
  (r : PathResult) :
  find_best_path nodes ctx = Some r -> (List.length (path r) <= 2)%nat.
Proof.
  unfold find_best_path. destruct nodes as [| n rest].
  - intros H. injection H as <-. simpl. lia.
  - unfold recommend.
    destruct (rank (score_nodes ctx (n :: rest))) as [| top tl] eqn:E;
      [discriminate |].
    destruct (Py.max _) as [m |]; [| discriminate]. cbn [Py.bind].
    destruct (Py.truediv _ _) as [q |]; [| discriminate]. cbn [Py.bind].
    intros H. injection H as <-. cbn [path].
    destruct (PathFacts.build_path_cases (top :: tl) top)
      as [[_ [bridge [x [_ ->]]]] | [_ ->]]; simpl; lia.
Qed.

End PackageFacts.

(** X11: for every result of [find_best_path] the package holds exactly one
    outreach message per element of the path, in path order: the cut to two
    elements drops none.  Each message is addressed to the person of its
    element, and its hop number is its position in the path, counted from 1,
    whatever the hop distance of that person. *)
Theorem package_has_one_message_per_path_element {L : Py.Lower}
  (leverage_text :
     string -> string -> list Article -> string -> string -> string)
  (outreach_text :
     string -> string -> string -> option string -> option string -> string ->
     string -> option string -> Z -> string)
  (strategy_text : string -> string -> Z -> list NodeSummary -> string -> string)
  (nodes : list Node) (ctx : option UserContext) (r : PathResult)
  (celebrity_name : string) (celebrity_data : CelebrityData)
  (user_background user_ask : string) :
  find_best_path nodes ctx = Some r ->
  let pkg :=
    generate_full_intelligence_package leverage_text outreach_text
      strategy_text celebrity_name celebrity_data r user_background user_ask in
  map om_target_person (pkg_outreach_messages pkg)
  = map pe_person_name (path r)
  /\ map om_hop_number (pkg_outreach_messages pkg)
     = map (fun i => Z.of_nat i + 1) (seq 0 (List.length (path r))).
Proof.
  intros H pkg. unfold pkg, generate_full_intelligence_package.
  cbn [pkg_outreach_messages].
  rewrite (firstn_all2 (n := 2) (path r))
    by exact (PackageFacts.path_length_at_most_two nodes ctx r H).
  destruct (PackageFacts.enumerate_indices (path r)) as [Hi Hn].
  rewrite !map_map. split.
  - rewrite <- Hn at 2. rewrite map_map. apply map_ext.
    intros [i n]. reflexivity.
  - rewrite <- (map_map Z.of_nat (fun z => z + 1)), <- Hi, map_map.
    apply map_ext. intros [i n]. reflexivity.
Qed.

Lemma package_has_one_message_per_path_element_witness :
  exists r,
    find_best_path [warm_but_far; cool_but_near] None = Some r
    /\ let pkg :=
         generate_full_intelligence_package
           (fun _ _ _ _ _ => "VALUE_PROP: a tool your fund wants")
           (fun _ _ _ _ _ _ _ _ _ => "MESSAGE: Hi, my name is Dat.")
           (fun _ _ _ _ _ => "Go through the agent.")
           "Eve" (mkCelebrityData (Some "Singer") None (Some 53)) r
           "Tech founder" "3-minute FaceTime" in
       map om_target_person (pkg_outreach_messages pkg)
       = map pe_person_name (path r)
       /\ map om_hop_number (pkg_outreach_messages pkg)
          = map (fun i => Z.of_nat i + 1) (seq 0 (List.length (path r))).
Proof.
  destruct (find_best_path [warm_but_far; cool_but_near] None) as [r |] eqn:E.
  - exists r. split; [reflexivity |].
    exact (package_has_one_message_per_path_element
             (fun _ _ _ _ _ => "VALUE_PROP: a tool your fund wants")
             (fun _ _ _ _ _ _ _ _ _ => "MESSAGE: Hi, my name is Dat.")
             (fun _ _ _ _ _ => "Go through the agent.")
             [warm_but_far; cool_but_near] None r
             "Eve" (mkCelebrityData (Some "Singer") None (Some 53))
             "Tech founder" "3-minute FaceTime" E).
  - vm_compute in E. discriminate E.
Defined.

(** ** Dashboard statistics *)

Module StatsFacts.
Import Binary64 Binary64Facts.

Ltac eval_status :=
  repeat match goal with
         | |- context [has_status ?s ?m] =>
           let v := eval vm_compute in (has_status s m) in
           change (has_status s m) with v
         end;
  cbv iota.

Lemma tally_cons (s : string) (msg : Cell) (msgs : list Cell) :
  tally s (msg :: msgs) = (if has_status s msg then 1 else 0) + tally s msgs.
Proof.
  unfold tally. simpl. destruct (has_status s msg).
  - rewrite AccessScore.len_cons. reflexivity.
  - reflexivity.
Qed.

Lemma tally_nonneg (s : string) (msgs : list Cell) : 0 <= tally s msgs.
Proof. apply AccessScore.len_nonneg. Qed.

(** One turn of the loop on a dict with the four counters. *)
Lemma count_status_step (d s r t : Z) (msg : Cell) :
  count_status [("draft", d); ("sent", s); ("replied", r); ("total", t)] msg
  = [("draft", d + (if has_status "draft" msg then 1 else 0));
     ("sent", s + (if has_status "sent" msg then 1 else 0));
     ("replied", r + (if has_status "replied" msg then 1 else 0));
     ("total", t + (if has_status "total" msg then 1 else 0))].
Proof.
  destruct msg as [| | x].
  - cbn. rewrite !Z.add_0_r. reflexivity.
  - cbn. rewrite !Z.add_0_r. reflexivity.
  - unfold count_status, has_status, status_of.
    cbn [PyDict.mem PyDict.add].
    destruct (String.eqb_spec x "draft") as [-> | N1].
    { cbn. rewrite !Z.add_0_r. reflexivity. }
    destruct (String.eqb_spec x "sent") as [-> | N2].
    { cbn. rewrite !Z.add_0_r. reflexivity. }
    destruct (String.eqb_spec x "replied") as [-> | N3].
    { cbn. rewrite !Z.add_0_r. reflexivity. }
    destruct (String.eqb_spec x "total") as [-> | N4].
    { cbn. rewrite !Z.add_0_r. reflexivity. }
    cbn. rewrite !Z.add_0_r. reflexivity.
Qed.

Lemma count_fold (msgs : list Cell) (d s r t : Z) :
  fold_left count_status msgs
            [("draft", d); ("sent", s); ("replied", r); ("total", t)]
  = [("draft", d + tally "draft" msgs); ("sent", s + tally "sent" msgs);
     ("replied", r + tally "replied" msgs); ("total", t + tally "total" msgs)].
Proof.
  revert d s r t. induction msgs as [| msg rest IH]; intros d s r t.
  - unfold tally, Py.len. simpl. rewrite !Z.add_0_r. reflexivity.
  - cbn [fold_left]. rewrite count_status_step, IH, !tally_cons.
    rewrite !Z.add_assoc. reflexivity.
Qed.

Lemma tallies_disjoint (msgs : list Cell) :
  tally "draft" msgs + tally "sent" msgs + tally "replied" msgs
  + tally "total" msgs <= Py.len msgs.
Proof.
  induction msgs as [| msg rest IH].
  - unfold tally, Py.len. simpl. lia.
  - rewrite !tally_cons, AccessScore.len_cons.
    destruct msg as [| | x].
    + eval_status. lia.
    + eval_status. lia.
    + destruct (String.eqb_spec x "draft") as [-> | N1]; [eval_status; lia |].
      destruct (String.eqb_spec x "sent") as [-> | N2]; [eval_status; lia |].
      destruct (String.eqb_spec x "replied") as [-> | N3];
        [eval_status; lia |].
      unfold has_status, status_of.
      rewrite (proj2 (String.eqb_neq x "draft") N1),
        (proj2 (String.eqb_neq x "sent") N2),
        (proj2 (String.eqb_neq x "replied") N3).
      destruct (String.eqb x "total"); lia.
Qed.

Lemma tallies_known (msgs : list Cell) :
  Forall known_status msgs ->
  tally "draft" msgs + tally "sent" msgs + tally "replied" msgs = Py.len msgs
  /\ tally "total" msgs = 0.
Proof.
  induction 1 as [| msg rest Hm Hr IH].
  - unfold tally, Py.len. simpl. lia.
  - rewrite !tally_cons, AccessScore.len_cons.
    destruct Hm as [-> | [-> | [-> | ->]]]; eval_status; lia.
Qed.

End StatsFacts.

(** X12: the loop leaves the four counters in place; [draft], [sent] and
    [replied] count the rows of that status (a row without the key counting
    as a draft) and never add up to more than the number of rows, while
    [total] is the number of rows plus the rows whose status is the text
    "total".  When every row has one of the three statuses the service
    writes, the three counters add up to [total], the number of rows. *)
Theorem status_counters_add_up (all_messages : list Cell) :
  exists d s r t,
    count_statuses all_messages
    = [("draft", d); ("sent", s); ("replied", r); ("total", t)]
    /\ d = tally "draft" all_messages
    /\ s = tally "sent" all_messages
    /\ r = tally "replied" all_messages
    /\ t = Py.len all_messages + tally "total" all_messages
    /\ d + s + r <= Py.len all_messages <= t
    /\ (Forall known_status all_messages ->
        d + s + r = t /\ t = Py.len all_messages).
Proof.
  unfold count_statuses. rewrite StatsFacts.count_fold.
  do 4 eexists. split; [reflexivity |].
  rewrite !Z.add_0_l.
  split; [reflexivity |]. split; [reflexivity |]. split; [reflexivity |].
  split; [reflexivity |].
  pose proof (StatsFacts.tallies_disjoint all_messages) as D.
  pose proof (StatsFacts.tally_nonneg "total" all_messages) as T.
  split; [lia |].
  intros K. destruct (StatsFacts.tallies_known all_messages K). lia.
Qed.

Lemma status_counters_add_up_witness :
  exists d s r t,
    count_statuses [Text "sent"; Absent; Text "replied"]
    = [("draft", d); ("sent", s); ("replied", r); ("total", t)]
    /\ d = tally "draft" [Text "sent"; Absent; Text "replied"]
    /\ s = tally "sent" [Text "sent"; Absent; Text "replied"]
    /\ r = tally "replied" [Text "sent"; Absent; Text "replied"]
    /\ t = Py.len [Text "sent"; Absent; Text "replied"]
           + tally "total" [Text "sent"; Absent; Text "replied"]
    /\ d + s + r <= Py.len [Text "sent"; Absent; Text "replied"] <= t
    /\ (Forall known_status [Text "sent"; Absent; Text "replied"] ->
        d + s + r = t /\ t = Py.len [Text "sent"; Absent; Text "replied"]).
Proof.
  exact (status_counters_add_up [Text "sent"; Absent; Text "replied"]).
Defined.

Module RateFacts.
Import Binary64 Binary64Facts.

Lemma round64_const_1 : (round64 1 == 1)%Q.
Proof. vm_compute. reflexivity. Qed.

Lemma round64_const_many : (round64 (inject_Z (2 ^ 63)) == inject_Z (2 ^ 63))%Q.
Proof. vm_compute. reflexivity. Qed.

Lemma round64_const_percent :
  (round64 (inject_Z (100 * 2 ^ 63)) == inject_Z (100 * 2 ^ 63))%Q.
Proof. vm_compute. reflexivity. Qed.

Lemma finite_many : (round64 (inject_Z (2 ^ 63)) <= max_float)%Q.
Proof. vm_compute. discriminate. Qed.

Lemma finite_percent : (round64 (inject_Z (100 * 2 ^ 63)) <= max_float)%Q.
Proof. vm_compute. discriminate. Qed.

Lemma rne_const (k : Z) : rne (inject_Z k) = k.
Proof. apply rne_inject. Qed.

(** The rate on two counters, the second positive. *)
Lemma reply_rate_range (replied sent : Z) :
  0 <= replied <= 2 ^ 63 -> 0 < sent ->
  exists q,
    reply_rate replied sent = Some (Float q)
    /\ (0 <= q)%Q
    /\ (replied <= sent -> (q <= 100)%Q)
    /\ (sent <= replied -> (100 <= q)%Q).
Proof.
  intros [Hr0 Hr1] Hs.
  assert (S1 : (1 <= inject_Z sent)%Q).
  { change 1%Q with (inject_Z 1). rewrite <- Zle_Qle. lia. }
  assert (R0 : (0 <= inject_Z replied)%Q).
  { change 0%Q with (inject_Z 0). rewrite <- Zle_Qle. exact Hr0. }
  assert (R1 : (inject_Z replied <= inject_Z (2 ^ 63))%Q).
  { rewrite <- Zle_Qle. exact Hr1. }
  pose proof round64_const_many as CM.
  pose proof round64_const_percent as CP.
  rewrite inject_Z_mult in CP. change (inject_Z 100) with 100%Q in CP.
  pose proof finite_many as FM.
  pose proof finite_percent as FP.
  rewrite inject_Z_mult in FP. change (inject_Z 100) with 100%Q in FP.
  assert (M0 : (0 <= inject_Z (2 ^ 63))%Q) by (vm_compute; discriminate).
  remember (inject_Z (2 ^ 63)) as M eqn:HM.
  set (ratio := (inject_Z replied / inject_Z sent)%Q).
  assert (Q0 : (0 <= ratio)%Q).
  { unfold ratio. apply Qle_shift_div_l; lra. }
  assert (Q1 : (ratio <= M)%Q).
  { unfold ratio. apply Qle_shift_div_r; [lra | nra]. }
  pose proof (fl_bounded ratio M Q0 Q1 FM) as E1.
  pose proof (round64_nonneg ratio Q0) as X0.
  pose proof (round64_mono ratio M Q1) as X1.
  rewrite CM in X1.
  set (x := round64 ratio) in *.
  (* the operand 100 *)
  assert (H100 : Py.float_of_int 100 = Some (round64 100)).
  { unfold Py.float_of_int. change (inject_Z 100) with 100%Q.
    apply (fl_bounded _ 100); [lra | lra | exact AccessScore.finite_100]. }
  pose proof AccessScore.round64_const_100 as Hh.
  set (h := round64 100) in *.
  (* the product *)
  assert (P0 : (0 <= x * h)%Q) by nra.
  assert (P1 : (x * h <= 100 * M)%Q) by nra.
  pose proof (fl_bounded _ _ P0 P1 FP) as E2.
  pose proof (round64_nonneg _ P0) as Y0.
  pose proof (round64_mono _ _ P1) as Y1.
  rewrite CP in Y1.
  set (y := round64 (x * h)) in *.
  (* the rounding to one decimal *)
  assert (K0 : 0 <= rne (y * 10)).
  { apply rne_ge. change (inject_Z 0) with 0%Q. lra. }
  assert (K1 : rne (y * 10) <= 1000 * 2 ^ 63).
  { apply rne_le. rewrite inject_Z_mult. change (inject_Z 1000) with 1000%Q.
    rewrite <- HM. lra. }
  set (k := rne (y * 10)) in *.
  assert (T0 : (0 <= inject_Z k / 10)%Q).
  { apply Qle_shift_div_l; [reflexivity |].
    change (0 * 10)%Q with (inject_Z 0). rewrite <- Zle_Qle. exact K0. }
  assert (T1 : (inject_Z k / 10 <= 100 * M)%Q).
  { apply Qle_shift_div_r; [reflexivity |].
    rewrite HM. change 100%Q with (inject_Z 100).
    change 10%Q with (inject_Z 10).
    rewrite <- !inject_Z_mult, <- Zle_Qle. lia. }
  pose proof (fl_bounded _ _ T0 T1 FP) as E3.
  exists (round64 (inject_Z k / 10)). split.
  - unfold reply_rate. replace (0 <? sent) with true
      by (symmetry; apply Z.ltb_lt; exact Hs).
    unfold Py.truediv, Py.fmul, round1.
    replace (sent =? 0) with false by (symmetry; apply Z.eqb_neq; lia).
    fold ratio. rewrite E1. cbn [Py.bind]. rewrite H100. cbn [Py.bind].
    fold x h. rewrite E2. cbn [Py.bind]. fold y k. rewrite E3. reflexivity.
  - split; [apply round64_nonneg; exact T0 |]. split.
    + intros Hle.
      assert (Q2 : (ratio <= 1)%Q).
      { unfold ratio. apply Qle_shift_div_r; [lra |].
        rewrite Qmult_1_l, <- Zle_Qle. exact Hle. }
      pose proof (round64_mono ratio 1 Q2) as X2.
      rewrite round64_const_1 in X2. fold x in X2.
      assert (P2 : (x * h <= 100)%Q) by nra.
      pose proof (round64_mono _ _ P2) as Y2.
      rewrite AccessScore.round64_const_100 in Y2. fold y in Y2.
      assert (K2 : k <= 1000).
      { unfold k. apply rne_le. change (inject_Z 1000) with 1000%Q. lra. }
      assert (T2 : (inject_Z k / 10 <= 100)%Q).
      { apply Qle_shift_div_r; [reflexivity |].
        change (100 * 10)%Q with (inject_Z 1000). rewrite <- Zle_Qle. exact K2. }
      pose proof (round64_mono _ _ T2) as Z2.
      rewrite AccessScore.round64_const_100 in Z2. exact Z2.
    + intros Hge.
      assert (Q2 : (1 <= ratio)%Q).
      { unfold ratio. apply Qle_shift_div_l; [lra |].
        rewrite Qmult_1_l, <- Zle_Qle. exact Hge. }
      pose proof (round64_mono 1 ratio Q2) as X2.
      rewrite round64_const_1 in X2. fold x in X2.
      assert (P2 : (100 <= x * h)%Q) by nra.
      pose proof (round64_mono _ _ P2) as Y2.
      rewrite AccessScore.round64_const_100 in Y2. fold y in Y2.
      assert (K2 : 1000 <= k).
      { unfold k. apply rne_ge. change (inject_Z 1000) with 1000%Q. lra. }
      assert (T2 : (100 <= inject_Z k / 10)%Q).
      { apply Qle_shift_div_l; [reflexivity |].
        change (100 * 10)%Q with (inject_Z 1000). rewrite <- Zle_Qle. exact K2. }
      pose proof (round64_mono _ _ T2) as Z2.
      rewrite AccessScore.round64_const_100 in Z2. exact Z2.
Qed.

End RateFacts.

(** X13: the statistics never divide by zero: without a row of status
    "sent" the reply rate is the integer 0.  Otherwise it is a float that is
    never negative, at most 100 when no more rows are "replied" than "sent",
    and at least 100 when at least as many are: the two counters are kept
    apart, so the rate is not bounded by 100 in general. *)
Theorem reply_rate_bounds (all_messages : list Cell) :
  Py.len all_messages <= PY_SSIZE_T_MAX ->
  exists st,
    get_outreach_stats all_messages = Some st
    /\ stats st = count_statuses all_messages
    /\ (tally "sent" all_messages = 0 -> reply_rate_percent st = Int 0)
    /\ (0 < tally "sent" all_messages ->
        exists q,
          reply_rate_percent st = Float q
          /\ (0 <= q)%Q
          /\ (tally "replied" all_messages <= tally "sent" all_messages ->
              (q <= 100)%Q)
          /\ (tally "sent" all_messages <= tally "replied" all_messages ->
              (100 <= q)%Q)).
Proof.
  intros Hlen. unfold get_outreach_stats, count_statuses.
  rewrite StatsFacts.count_fold.
  change (PyDict.get "replied" _)
    with (Some (0 + tally "replied" all_messages)).
  change (PyDict.get "sent" _) with (Some (0 + tally "sent" all_messages)).
  cbn [Py.bind]. rewrite !Z.add_0_l.
  pose proof (StatsFacts.tallies_disjoint all_messages) as D.
  pose proof (StatsFacts.tally_nonneg "draft" all_messages) as T1.
  pose proof (StatsFacts.tally_nonneg "sent" all_messages) as T2.
  pose proof (StatsFacts.tally_nonneg "replied" all_messages) as T3.
  pose proof (StatsFacts.tally_nonneg "total" all_messages) as T4.
  destruct (Z_lt_le_dec 0 (tally "sent" all_messages)) as [Pos | Zero].
  - destruct (RateFacts.reply_rate_range (tally "replied" all_messages)
                (tally "sent" all_messages)) as [q [E [Q0 [Q1 Q2]]]].
    { unfold PY_SSIZE_T_MAX in Hlen. lia. }
    { exact Pos. }
    rewrite E. cbn [Py.bind]. eexists. split; [reflexivity |].
    cbn [stats reply_rate_percent]. split; [reflexivity |]. split; [lia |].
    intros _. exists q. repeat split; assumption.
  - unfold reply_rate. replace (0 <? tally "sent" all_messages) with false
      by (symmetry; apply Z.ltb_ge; exact Zero).
    cbn [Py.bind]. eexists. split; [reflexivity |].
    cbn [stats reply_rate_percent]. split; [reflexivity |].
    split; [reflexivity |]. lia.
Qed.

Lemma reply_rate_bounds_witness :
  exists st,
    get_outreach_stats [Text "sent"; Text "replied"; Text "replied"] = Some st
    /\ stats st = count_statuses [Text "sent"; Text "replied"; Text "replied"]
    /\ (tally "sent" [Text "sent"; Text "replied"; Text "replied"] = 0 ->
        reply_rate_percent st = Int 0)
    /\ (0 < tally "sent" [Text "sent"; Text "replied"; Text "replied"] ->
        exists q,
          reply_rate_percent st = Float q
          /\ (0 <= q)%Q
          /\ (tally "replied" [Text "sent"; Text "replied"; Text "replied"]
              <= tally "sent" [Text "sent"; Text "replied"; Text "replied"] ->
              (q <= 100)%Q)
          /\ (tally "sent" [Text "sent"; Text "replied"; Text "replied"]
              <= tally "replied" [Text "sent"; Text "replied"; Text "replied"] ->
              (100 <= q)%Q)).
Proof.
  apply (reply_rate_bounds [Text "sent"; Text "replied"; Text "replied"]).
  vm_compute. discriminate.
Defined.

(** ** The scraper *)

Module ScraperFacts.

Lemma slice_to_length {A : Type} (k : Z) (l : list A) :
  0 <= k -> Py.len (slice_to k l) <= k.
Proof.
  intros H. unfold slice_to, Py.len.
  replace (0 <=? k) with true by (symmetry; apply Z.leb_le; exact H).
  rewrite length_firstn. lia.
Qed.

Lemma slice_to_shorter {A : Type} (k : Z) (l : list A) :
  (List.length (slice_to k l) <= List.length l)%nat.
Proof.
  unfold slice_to. destruct (0 <=? k); rewrite length_firstn; lia.
Qed.

Lemma read_articles_length (l : list RawArticle) (r : list Article) :
  read_articles l = Some r -> List.length r = List.length l.
Proof.
  revert r. induction l as [| a t IH]; intros r H; simpl in H.
  - injection H as <-. reflexivity.
  - destruct (read_article a) as [x |]; [| discriminate]. cbn [Py.bind] in H.
    destruct (read_articles t) as [rest |]; [| discriminate].
    cbn [Py.bind] in H. injection H as <-. simpl. f_equal. apply IH.
    reflexivity.
Qed.

Lemma search_google_length (key : option string)
  (request : string -> option (option (list RawResult))) (query : string) :
  (List.length (search_google key request query) <= 5)%nat.
Proof.
  unfold search_google. destruct (negb (env_truthy key)); [simpl; lia |].
  destruct (request query) as [results |]; [| simpl; lia].
  rewrite length_map.
  pose proof (slice_to_length 5 (match results with Some l => l | None => [] end)
                ltac:(lia)) as H.
  unfold Py.len in H. lia.
Qed.

Lemma search_google_without_key (key : option string)
  (request : string -> option (option (list RawResult))) (query : string) :
  env_truthy key = false -> search_google key request query = [].
Proof. intros H. unfold search_google. rewrite H. reflexivity. Qed.

End ScraperFacts.

(** X14: whatever the search API answers, [find_celebrity_connections]
    reports at most three investors, at most three podcast appearances and at
    most five raw results, and a manager only together with raw results;
    without a search key it sends nothing and reports nothing. *)
Theorem connections_are_bounded (SERP_API_KEY : option string)
  (serp_request : string -> option (option (list RawResult)))
  (celebrity_name : string) :
  let c := find_celebrity_connections SERP_API_KEY serp_request celebrity_name in
  (List.length (investors c) <= 3)%nat
  /\ (List.length (podcast_appearances c) <= 3)%nat
  /\ (List.length (raw_results c) <= 5)%nat
  /\ recent_events c = []
  /\ (raw_results c = [] -> manager c = None)
  /\ (env_truthy SERP_API_KEY = false -> c = mkConnections None [] [] [] []).
Proof.
  intros c. unfold c, find_celebrity_connections.
  set (q1 := (double_quote ++ celebrity_name ++ double_quote
              ++ " manager OR agent OR publicist")%string).
  set (q2 := (double_quote ++ celebrity_name ++ double_quote
              ++ " investor OR " ++ double_quote ++ "backed by"
              ++ double_quote ++ " OR " ++ double_quote ++ "invested in"
              ++ double_quote)%string).
  set (q3 := (double_quote ++ celebrity_name ++ double_quote
              ++ " podcast interview 2024 OR 2025")%string).
  pose proof (ScraperFacts.search_google_length SERP_API_KEY serp_request q1)
    as L1.
  split; [| split; [| split; [| split; [| split]]]].
  - destruct (search_google SERP_API_KEY serp_request q1);
      cbn [investors]; rewrite length_map;
      pose proof (ScraperFacts.slice_to_length 3
                    (search_google SERP_API_KEY serp_request q2) ltac:(lia)) as H;
      unfold Py.len in H; lia.
  - destruct (search_google SERP_API_KEY serp_request q1);
      cbn [podcast_appearances]; rewrite length_map;
      pose proof (ScraperFacts.slice_to_length 3
                    (search_google SERP_API_KEY serp_request q3) ltac:(lia)) as H;
      unfold Py.len in H; lia.
  - destruct (search_google SERP_API_KEY serp_request q1);
      cbn [raw_results]; [simpl; lia | exact L1].
  - destruct (search_google SERP_API_KEY serp_request q1); reflexivity.
  - destruct (search_google SERP_API_KEY serp_request q1);
      cbn [raw_results manager]; [reflexivity | discriminate].
  - intros H.
    rewrite !(ScraperFacts.search_google_without_key _ _ _ H). reflexivity.
Qed.

Lemma connections_are_bounded_witness :
  let c := find_celebrity_connections None (fun _ => None) "Eve" in
  (List.length (investors c) <= 3)%nat
  /\ (List.length (podcast_appearances c) <= 3)%nat
  /\ (List.length (raw_results c) <= 5)%nat
  /\ recent_events c = []
  /\ (raw_results c = [] -> manager c = None)
  /\ (env_truthy None = false -> c = mkConnections None [] [] [] []).
Proof. exact (connections_are_bounded None (fun _ => None) "Eve"). Defined.


